(** * qt_table_increment: the counter store, the rate estimator, the
      save/load path and the table handlers of [mainwindow.cpp], embedded
      in Rocq.

    The C++ objects are modelled by records, the member functions by
    functions from the object's state to its new state.  Values of the C++
    type [int] are integers of [Z] kept in the 32-bit two's complement
    range; arithmetic on them is written with its wrap-around. *)

From Stdlib Require Import String ZArith QArith Qround Qabs Qpower Qreduction.
From Stdlib Require Import List Bool Lia Lqa DecimalString.
From Stdlib Require Floats Uint63.
Import ListNotations.
Local Open Scope Z_scope.

(** ** The C++ type [int] *)

Module Int.

Definition min_int : Z := -2147483648.
Definition max_int : Z := 2147483647.
Definition modulus : Z := 4294967296.

(** The values an [int] can hold. *)
Definition in_range (z : Z) : Prop := min_int <= z <= max_int.

(** Reduction of a mathematical integer to the [int] that is congruent to
    it modulo [2^32]. *)
Definition wrap (z : Z) : Z := (z - min_int) mod modulus + min_int.

(** [a + b] on two [int]s.  ISO C++ leaves the overflowing sum undefined;
    the model takes the two's complement result. *)
Definition add (a b : Z) : Z := wrap (a + b).

(** [++c] *)
Definition preincrement (c : Z) : Z := add c 1.

(** [static_cast<int>(n)] for a [size_t] value [n]: the [int] congruent to
    [n] modulo [2^32]. *)
Definition static_cast_int (n : nat) : Z := wrap (Z.of_nat n).

(** [QVariant::toInt] on a 64-bit integer value. *)
Definition toInt (z : Z) : Z := wrap z.

End Int.

(** ** std::vector<int> *)

Definition vector := list Z.

(** [v.push_back(x)] *)
Definition push_back (x : Z) (v : vector) : vector := v ++ [x].

(** [v.erase(v.begin() + pos)] for [pos < v.size()] *)
Definition erase (pos : nat) (v : vector) : vector :=
  firstn pos v ++ skipn (S pos) v.

(** [std::accumulate(v.begin(), v.end(), 0)]: the accumulator has the type
    of the initial value, [int]. *)
Definition accumulate (v : vector) : Z := fold_left Int.add v 0.

(** The sum of the elements as a mathematical integer. *)
Definition exact_sum (v : vector) : Z := fold_right Z.add 0 v.

(** ** CounterManager

    Every member function holds [mutex_] from its first statement to its
    last, so each one is modelled as one step on [counters_]. *)

Record CounterManager := { counters_ : vector }.

Definition addCounter (value : Z) (m : CounterManager) : CounterManager :=
  {| counters_ := push_back value (counters_ m) |}.

Definition deleteCounter (index : Z) (m : CounterManager) : CounterManager :=
  if (0 <=? index) && (index <? Int.static_cast_int (length (counters_ m)))
  then {| counters_ := erase (Z.to_nat index) (counters_ m) |}
  else m.

Definition getCounters (m : CounterManager) : vector := counters_ m.

Definition incrementAll (m : CounterManager) : CounterManager :=
  {| counters_ := map Int.preincrement (counters_ m) |}.

Definition setCounters (counters : vector) (_ : CounterManager) : CounterManager :=
  {| counters_ := counters |}.

(** The body of the worker thread's loop run [ticks] times. *)
Definition workerThread (ticks : nat) (m : CounterManager) : CounterManager :=
  Nat.iter ticks incrementAll m.

(** The operations of the store as data, for statements that range over
    all of them. *)
Inductive Op :=
| OpAdd (value : Z)
| OpRemove (index : Z)
| OpIncrementAll
| OpSnapshot
| OpReplaceAll (counters : vector).

Definition run_op (o : Op) (m : CounterManager) : CounterManager * option vector :=
  match o with
  | OpAdd value => (addCounter value m, None)
  | OpRemove index => (deleteCounter index m, None)
  | OpIncrementAll => (incrementAll m, None)
  | OpSnapshot => (m, Some (getCounters m))
  | OpReplaceAll counters => (setCounters counters m, None)
  end.

Definition size (m : CounterManager) : nat := length (counters_ m).

(** What the specification asks of [remove(index)] on an index in range:
    [r] is [v] without its element at [pos], the later ones moved one place
    to the left. *)
Definition removed_at (pos : nat) (v r : vector) : Prop :=
  S (length r) = length v /\
  (forall j, (j < pos)%nat -> nth_error r j = nth_error v j) /\
  (forall j, (pos <= j)%nat -> nth_error r j = nth_error v (S j)).

(** ** double

    A [double] is modelled by the rational number it denotes.  An operation
    gives the exact result rounded once to binary64 (as the SSE2 and ARM64
    instructions do): to the nearest number with a significand of 53 bits
    and an exponent of at least [-1074], the one with the even significand
    when two are equally near.  Infinities and NaN are not modelled, and
    the rounding has no largest exponent: the quotients of
    [updateFrequency] on [int] sums stay below [2^42] in absolute value. *)

Definition double := Q.

(** The exponent of the binade of a positive [q]:
    [2 ^ ilog2 q <= q < 2 ^ (ilog2 q + 1)]. *)
Definition ilog2 (q : Q) : Z :=
  let k := Z.log2 (Qnum q) - Z.log2 (Zpos (Qden q)) in
  if Qle_bool (2 ^ k) q then k else k - 1.

(** The integer nearest to [y], the even one of two that are equally near. *)
Definition round_half_even (y : Q) : Z :=
  let f := Qfloor y in
  match (y - inject_Z f ?= 1 # 2)%Q with
  | Lt => f
  | Gt => f + 1
  | Eq => if Z.even f then f else f + 1
  end.

(** The rounding of a positive [q]: a multiple of [2 ^ x], where [x] is
    the exponent of the last bit of a 53-bit significand, not below that
    of the subnormal numbers. *)
Definition round_positive (q : Q) : Q :=
  let x := Z.max (ilog2 q - 52) (-1074) in
  (inject_Z (round_half_even (q / 2 ^ x)) * 2 ^ x)%Q.

(** Rounding to binary64, to nearest, ties to even. *)
Definition round64 (q : Q) : double :=
  Qred (match (q ?= 0)%Q with
        | Eq => 0
        | Gt => round_positive q
        | Lt => - round_positive (- q)
        end)%Q.

(** [a / b] and [a - b] on two [double]s, [b] not zero in the quotient. *)
Definition fdiv (a b : double) : double := round64 (a / b).

Definition fsub (a b : double) : double := round64 (a - b).

(** The conversion of an [int] to [double]: every [int] is a binary64
    number. *)
Definition to_double (z : Z) : double := inject_Z z.

(** The conversion of a [qint64] to [double], which rounds from [2^53]
    on. *)
Definition qint64_to_double (z : Z) : double := round64 (inject_Z z).

(** Half the distance from [1] to the next binary64 number: the largest
    relative error of a rounding on the normal range. *)
Definition ulp_half : Q := 2 ^ (-53).

(** The binary64 arithmetic of the machine, to compare [round64] with:
    the number a finite [float] denotes, the [float] of an integer of at
    most 63 bits, and the three operations of [updateFrequency] on
    [float]s. *)
Definition of_float (f : PrimFloat.float) : option Q :=
  match FloatOps.Prim2SF f with
  | SpecFloat.S754_zero _ => Some 0%Q
  | SpecFloat.S754_finite sign m e =>
      Some (Qred (inject_Z (if sign then Zneg m else Zpos m) * 2 ^ e))
  | _ => None
  end.

Definition float_of_Z (z : Z) : PrimFloat.float :=
  if z <? 0 then PrimFloat.opp (PrimFloat.of_uint63 (Uint63.of_Z (- z)))
  else PrimFloat.of_uint63 (Uint63.of_Z z).

Definition machine_rate (S0 S1 elapsed : Z) : PrimFloat.float :=
  PrimFloat.div (PrimFloat.sub (float_of_Z S1) (float_of_Z S0))
                (PrimFloat.div (float_of_Z elapsed) (float_of_Z 1000)).

Definition denotes (f : PrimFloat.float) (q : Q) : bool :=
  match of_float f with
  | Some r => (Qnum r =? Qnum q) && (Zpos (Qden r) =? Zpos (Qden q))
  | None => false
  end.

(** The integers from [from], [count] of them. *)
Fixpoint Zseq (from : Z) (count : nat) : list Z :=
  match count with
  | O => []
  | S count' => from :: Zseq (from + 1) count'
  end.

(** ** QElapsedTimer

    The timer remembers the clock reading of its last [start] or [restart],
    in milliseconds; it is invalid until then.  The reading of the clock at
    a call is an argument of the call. *)

Record QElapsedTimer := { t_start : option Z }.

Definition isValid (t : QElapsedTimer) : bool :=
  match t_start t with Some _ => true | None => false end.

Definition start (now : Z) (_ : QElapsedTimer) : QElapsedTimer :=
  {| t_start := Some now |}.

(** The milliseconds since the timer was started; [updateFrequency] only
    asks a valid timer. *)
Definition elapsed (now : Z) (t : QElapsedTimer) : Z :=
  match t_start t with Some t0 => now - t0 | None => 0 end.

Definition restart (now : Z) (_ : QElapsedTimer) : QElapsedTimer :=
  {| t_start := Some now |}.

(** ** MainWindow

    The members the counter, rate and persistence paths use.  The text of
    [freqLabel] is either the one [setupUI] gives it or a rate written by
    [updateFrequency] (printed with two decimals). *)

Inductive LabelText :=
| FrequencyZero                     (* "Frequency: 0 Hz" *)
| FrequencyHz (frequency : double). (* "Frequency: %1 Hz" *)

Record MainWindow := {
  counterManager : CounterManager;
  elapsedTimer : QElapsedTimer;
  previousSum : double;
  freqLabel : LabelText
}.

(** The window as its constructor leaves it before the first timer fires,
    for the counters that were loaded. *)
Definition new_MainWindow (counters : vector) : MainWindow :=
  {| counterManager := {| counters_ := counters |};
     elapsedTimer := {| t_start := None |};
     previousSum := 0%Q;
     freqLabel := FrequencyZero |}.

Definition set_counterManager (m : CounterManager) (mw : MainWindow) : MainWindow :=
  {| counterManager := m;
     elapsedTimer := elapsedTimer mw;
     previousSum := previousSum mw;
     freqLabel := freqLabel mw |}.

(** The first two statements of [updateFrequency]: the sum is accumulated
    in [int] and converted afterwards. *)
Definition currentSum (mw : MainWindow) : double :=
  let counters := getCounters (counterManager mw) in
  to_double (accumulate counters).

(** One firing of [freqTimer].  [now] is the clock when the tick reads it
    ([start] on the first tick, [elapsed] afterwards), [later] the clock at
    the closing [restart].  The second component is the rate the tick
    writes to the label, if it writes one. *)
Definition updateFrequency (now later : Z) (mw : MainWindow)
  : MainWindow * option double :=
  let currentSum := currentSum mw in
  if negb (isValid (elapsedTimer mw)) then
    ({| counterManager := counterManager mw;
        elapsedTimer := start now (elapsedTimer mw);
        previousSum := currentSum;
        freqLabel := freqLabel mw |}, None)
  else
    let timeDiff :=
      fdiv (qint64_to_double (elapsed now (elapsedTimer mw))) (to_double 1000) in
    if Qle_bool timeDiff 0 then (mw, None)
    else
      let frequency := fdiv (fsub currentSum (previousSum mw)) timeDiff in
      ({| counterManager := counterManager mw;
          elapsedTimer := restart later (elapsedTimer mw);
          previousSum := currentSum;
          freqLabel := FrequencyHz frequency |}, Some frequency).

(** ** The database

    The file [counters.db] holds at most one table, [counters], of one
    integer column; its rows are kept in insertion order.  A transaction
    works on a copy that [COMMIT] installs. *)

Inductive Statement :=
| CreateTableIfNotExists
| SelectValue
| BeginTransaction
| DeleteFrom
| InsertValue (value : Z)
| Commit.

Record Sqlite := {
  table : option (list Z);                (* [None]: no table [counters] *)
  transaction : option (option (list Z))  (* the copy of an open transaction *)
}.

Definition current (s : Sqlite) : option (list Z) :=
  match transaction s with Some t => t | None => table s end.

Definition write (t : list Z) (s : Sqlite) : Sqlite :=
  match transaction s with
  | Some _ => {| table := table s; transaction := Some (Some t) |}
  | None => {| table := Some t; transaction := None |}
  end.

(** The effect of a statement and the rows it yields; [None] when the
    engine rejects it. *)
Definition sql (q : Statement) (s : Sqlite) : option (Sqlite * list Z) :=
  match q with
  | CreateTableIfNotExists =>
      match current s with
      | Some _ => Some (s, [])
      | None => Some (write [] s, [])
      end
  | SelectValue =>
      match current s with
      | Some rows => Some (s, rows)
      | None => None
      end
  | BeginTransaction =>
      match transaction s with
      | None => Some ({| table := table s; transaction := Some (table s) |}, [])
      | Some _ => None
      end
  | DeleteFrom =>
      match current s with
      | Some _ => Some (write [] s, [])
      | None => None
      end
  | InsertValue value =>
      match current s with
      | Some rows => Some (write (rows ++ [value]) s, [])
      | None => None
      end
  | Commit =>
      match transaction s with
      | Some t => Some ({| table := t; transaction := None |}, [])
      | None => None
      end
  end.

Definition rollback (s : Sqlite) : Sqlite :=
  {| table := table s; transaction := None |}.

(** What the program's storage calls act on: the file, the default
    connection, and the environment's verdicts.  [outcomes] gives, for the
    successive calls of [QSqlQuery::exec], whether the engine can carry the
    statement out ([false]: an I/O error, a full disk, a lock); past its end
    every call can be carried out.  [rollbacks] gives, for the same calls,
    whether a statement that cannot be carried out takes the open
    transaction with it: the engine rolls a transaction back by itself on
    some errors (a full disk, an I/O error, an interrupt) and leaves it
    open on others; past its end every transaction is left open. *)
Record World := {
  sqlite : Sqlite;
  available : bool;        (* whether [open] can reach the file *)
  registered : bool;       (* the default connection exists *)
  opened : bool;           (* and is open *)
  outcomes : list bool;
  rollbacks : list bool;
  messages : list string   (* the texts of [QMessageBox::critical] *)
}.

Definition Qt (A : Type) : Type := World -> A * World.

Definition ret {A} (a : A) : Qt A := fun w => (a, w).

Definition bind {A B} (c : Qt A) (k : A -> Qt B) : Qt B :=
  fun w => let (a, w') := c w in k a w'.

Notation "x <- c ;; k" := (bind c (fun x => k))
  (at level 61, c at next level, right associativity).
Notation "c ;;; k" := (bind c (fun _ => k))
  (at level 61, right associativity).

Fixpoint for_each {A} (l : list A) (body : A -> Qt unit) : Qt unit :=
  match l with
  | [] => ret tt
  | x :: l' => body x ;;; for_each l' body
  end.

Definition set_sqlite (s : Sqlite) (w : World) : World :=
  {| sqlite := s; available := available w; registered := registered w;
     opened := opened w; outcomes := outcomes w; rollbacks := rollbacks w;
     messages := messages w |}.

Definition set_opened (b : bool) (w : World) : World :=
  {| sqlite := sqlite w; available := available w; registered := registered w;
     opened := b; outcomes := outcomes w; rollbacks := rollbacks w;
     messages := messages w |}.

(** [db.open()]: an open connection is closed first. *)
Definition open : Qt bool := fun w =>
  let w := if opened w then set_sqlite (rollback (sqlite w)) w else w in
  (available w, set_opened (available w) w).

(** [db.close()] *)
Definition close : Qt unit := fun w =>
  (tt, set_opened false (set_sqlite (rollback (sqlite w)) w)).

(** [QSqlDatabase::database()]: the default connection, opened if it
    exists and is not open yet. *)
Definition database : Qt unit := fun w =>
  if registered w && negb (opened w) then (tt, set_opened (available w) w)
  else (tt, w).

Definition db_isValid : Qt bool := fun w => (registered w, w).

Definition db_isOpen : Qt bool := fun w => (registered w && opened w, w).

(** [QSqlDatabase::addDatabase("QSQLITE")] with [setDatabaseName] *)
Definition addDatabase : Qt unit := fun w =>
  (tt, {| sqlite := sqlite w; available := available w; registered := true;
          opened := false; outcomes := outcomes w; rollbacks := rollbacks w;
     messages := messages w |}).

Definition critical (text : string) : Qt unit := fun w =>
  (tt, {| sqlite := sqlite w; available := available w; registered := registered w;
          opened := opened w; outcomes := outcomes w; rollbacks := rollbacks w;
          messages := messages w ++ [text] |}).

(** [query.exec(...)]: whether it succeeded, and the rows of the result.
    A statement the engine rejects (no such table, no transaction to
    commit) fails and changes nothing; one it cannot carry out fails and,
    when the error is of that kind, ends the open transaction. *)
Definition exec (q : Statement) : Qt (bool * list Z) := fun w =>
  let verdict := match outcomes w with [] => true | b :: _ => b end in
  let rolls_back := match rollbacks w with [] => false | b :: _ => b end in
  let w' := {| sqlite := sqlite w; available := available w;
               registered := registered w; opened := opened w;
               outcomes := tl (outcomes w); rollbacks := tl (rollbacks w);
               messages := messages w |} in
  if opened w && verdict then
    match sql q (sqlite w) with
    | Some (s, rows) => ((true, rows), set_sqlite s w')
    | None => ((false, []), w')
    end
  else if opened w && rolls_back then
    ((false, []), set_sqlite (rollback (sqlite w)) w')
  else ((false, []), w').

Definition exec_ (q : Statement) : Qt unit := exec q ;;; ret tt.

Definition loadCountersFromDatabase (mw : MainWindow) : Qt MainWindow :=
  database ;;;
  valid <- db_isValid ;;
  (if negb valid then addDatabase else ret tt) ;;;
  ok <- open ;;
  if negb ok then
    critical "Failed to open database" ;;; ret mw
  else
    exec_ CreateTableIfNotExists ;;;
    r <- exec SelectValue ;;
    let counters :=
      fold_left (fun cs row => push_back (Int.toInt row) cs) (snd r) [] in
    let mw' := set_counterManager (setCounters counters (counterManager mw)) mw in
    close ;;;
    ret mw'.

Definition onSaveClicked (mw : MainWindow) : Qt unit :=
  database ;;;
  isopen <- db_isOpen ;;
  if negb isopen then
    critical "Database connection is not open"
  else
    exec_ BeginTransaction ;;;
    exec_ DeleteFrom ;;;
    let counters := getCounters (counterManager mw) in
    for_each counters (fun value => exec_ (InsertValue value)) ;;;
    exec_ Commit.

Definition all_true (l : list bool) : bool := forallb (fun b => b) l.

(** The storage can be used and holds the table: the default connection
    exists, the file can be opened, no transaction is open, the table
    [counters] exists, and the engine carries out every statement. *)
Definition storage_ready (w : World) : Prop :=
  registered w = true /\ available w = true /\
  transaction (sqlite w) = None /\ table (sqlite w) <> None /\
  all_true (outcomes w) = true.

(** The rate of the specification for the samples [(S0, t0)] and
    [(S1, t1)], in exact arithmetic: times are in milliseconds, the rate is
    per second. *)
Definition rate (S0 t0 S1 t1 : Z) : Q :=
  ((to_double S1 - to_double S0) / (to_double (t1 - t0) / to_double 1000))%Q.

(** The rate as [updateFrequency] computes it from the recorded sum [S0],
    the current sum [S1] and the milliseconds [elapsed], each operation
    rounded. *)
Definition computed_rate (S0 S1 elapsed : Z) : double :=
  fdiv (fsub (to_double S1) (to_double S0))
       (fdiv (qint64_to_double elapsed) (to_double 1000)).

(** The relative error the specification's rate is computed within. *)
Definition tolerance : Q := 2 ^ (-51).

(** A window by its members. *)
Definition window (cm : CounterManager) (started : option Z) (sum : double)
  (label : LabelText) : MainWindow :=
  {| counterManager := cm; elapsedTimer := {| t_start := started |};
     previousSum := sum; freqLabel := label |}.

(** A collection of [2^31] counters. *)
Definition huge_collection : vector := repeat 0 (Z.to_nat 2147483648).

(** A storage whose table holds [rows], reached through the registered
    connection, with the given verdicts for the coming statements, and for
    those that fail, whether they roll the transaction back. *)
Definition world_with_rollbacks (rows : list Z) (verdicts flags : list bool) : World :=
  {| sqlite := {| table := Some rows; transaction := None |};
     available := true; registered := true; opened := true;
     outcomes := verdicts; rollbacks := flags; messages := [] |}.

(** The same with no rollback: a statement that fails leaves the
    transaction open. *)
Definition world_with (rows : list Z) (verdicts : list bool) : World :=
  world_with_rollbacks rows verdicts [].

(** No coming failure rolls a transaction back. *)
Definition keeps_transactions (flags : list bool) : Prop :=
  Forall (fun flag => flag = false) flags.

(** The statements of [onSaveClicked] between [BEGIN] and [COMMIT]. *)
Definition save_writes (counters : vector) : list Statement :=
  DeleteFrom :: map InsertValue counters.

Definition is_write (q : Statement) : Prop :=
  match q with DeleteFrom | InsertValue _ => True | _ => False end.

(** ** The widgets

    [a * b] and [a - b] on two [int]s, with the same reading of overflow as
    [Int.add]. *)

Definition int_mul (a b : Z) : Z := Int.wrap (a * b).

Definition int_sub (a b : Z) : Z := Int.wrap (a - b).

(** [for (int i = 0; i < n; ++i) body(i)] on a state. *)
Fixpoint for_loop {St : Type} (steps : nat) (i : Z) (body : Z -> St -> St) (s : St)
  : St :=
  match steps with
  | O => s
  | S steps' => for_loop steps' (i + 1) body (body i s)
  end.

Definition for_int {St : Type} (n : Z) (body : Z -> St -> St) (s : St) : St :=
  for_loop (Z.to_nat n) 0 body s.

(** [QString::number(n)] *)
Definition number (n : Z) : string := NilZero.string_of_int (Z.to_int n).

(** The table has one column: a row has no item, or an item with its text.
    Rows are numbered by [int]s, so a table has at most [INT_MAX] of them.
    A call that names a row the table does not have does nothing. *)
Definition QTableWidget := list (option string).

Definition rowCount (t : QTableWidget) : Z := Z.of_nat (length t).

Definition valid_row (row : Z) (t : QTableWidget) : bool :=
  (0 <=? row) && (row <? rowCount t).

Definition setRowCount (rows : Z) (t : QTableWidget) : QTableWidget :=
  if rows <? 0 then t
  else firstn (Z.to_nat rows) t ++ repeat None (Z.to_nat rows - length t).

Definition insertRow (row : Z) (t : QTableWidget) : QTableWidget :=
  if (0 <=? row) && (row <=? rowCount t)
  then firstn (Z.to_nat row) t ++ None :: skipn (Z.to_nat row) t
  else t.

Definition removeRow (row : Z) (t : QTableWidget) : QTableWidget :=
  if valid_row row t
  then firstn (Z.to_nat row) t ++ skipn (S (Z.to_nat row)) t
  else t.

(** [item(row, 0)]: the item of the row, null when there is none. *)
Definition item (row : Z) (t : QTableWidget) : option string :=
  if valid_row row t then nth (Z.to_nat row) t None else None.

(** [setItem(row, 0, new QTableWidgetItem(text))] *)
Definition setItem (row : Z) (text : string) (t : QTableWidget) : QTableWidget :=
  if valid_row row t
  then firstn (Z.to_nat row) t ++ Some text :: skipn (S (Z.to_nat row)) t
  else t.

(** [setText] on the item of a row. *)
Definition setText (row : Z) (text : string) (t : QTableWidget) : QTableWidget :=
  match item row t with
  | Some _ => setItem row text t
  | None => t
  end.

(** What [adjustWindowSize] reads from the desktop: the height of the
    table's row 0 when it has one, of its header, and of the screen's
    available geometry. *)
Record Desktop := {
  sectionSize : Z;
  headerHeight : Z;
  availableHeight : Z
}.

Definition rowHeight (d : Desktop) (row : Z) (t : QTableWidget) : Z :=
  if valid_row row t then sectionSize d else 0.

(** The table and the height of the window's last [resize]. *)
Record Widgets := {
  tableWidget : QTableWidget;
  windowHeight : Z
}.

(** The height [adjustWindowSize] computes. *)
Definition finalHeight (d : Desktop) (t : QTableWidget) : Z :=
  let totalTableHeight :=
    Int.add (int_mul (rowHeight d 0 t) (rowCount t)) (headerHeight d) in
  let extraHeight := 150 in
  let totalHeight := Int.add totalTableHeight extraHeight in
  let maxHeight := int_sub (availableHeight d) 100 in
  Z.min totalHeight maxHeight.

Definition adjustWindowSize (d : Desktop) (ui : Widgets) : Widgets :=
  {| tableWidget := tableWidget ui;
     windowHeight := finalHeight d (tableWidget ui) |}.

(** The widgets as [setupUI] leaves them: a table without rows, in a
    window of some height. *)
Definition setupUI (height : Z) : Widgets :=
  {| tableWidget := []; windowHeight := height |}.

Definition onAddClicked (d : Desktop) (mw : MainWindow) (ui : Widgets)
  : MainWindow * Widgets :=
  let mw' := set_counterManager (addCounter 0 (counterManager mw)) mw in
  let row := rowCount (tableWidget ui) in
  let t := insertRow row (tableWidget ui) in
  let t := setItem row "0" t in
  (mw', adjustWindowSize d {| tableWidget := t; windowHeight := windowHeight ui |}).

(** [selected] gives the rows of the items [selectedItems()] returns, in
    its order.  The third component is the row given to [selectRow], if it
    is called. *)
Definition onDeleteClicked (d : Desktop) (selected : list Z)
  (mw : MainWindow) (ui : Widgets) : MainWindow * Widgets * option Z :=
  match selected with
  | [] => (mw, ui, None)
  | row :: _ =>
      let mw' := set_counterManager (deleteCounter row (counterManager mw)) mw in
      let t := removeRow row (tableWidget ui) in
      let rowCount := rowCount t in
      let next :=
        if 0 <? rowCount
        then Some (if rowCount <=? row then rowCount - 1 else row)
        else None in
      (mw', adjustWindowSize d {| tableWidget := t; windowHeight := windowHeight ui |},
       next)
  end.

Definition updateTable (mw : MainWindow) (ui : Widgets) : Widgets :=
  let counters := getCounters (counterManager mw) in
  let t := setRowCount (Int.static_cast_int (length counters)) (tableWidget ui) in
  let t :=
    for_int (Int.static_cast_int (length counters))
      (fun i t =>
         let t := match item i t with
                  | None => setItem i "" t
                  | Some _ => t
                  end in
         setText i (number (nth (Z.to_nat i) counters 0)) t) t in
  {| tableWidget := t; windowHeight := windowHeight ui |}.

(** [loadCountersFromDatabase] with the statements that fill the table. *)
Definition loadCountersFromDatabase_widgets (mw : MainWindow) (ui : Widgets)
  : Qt (MainWindow * Widgets) :=
  database ;;;
  valid <- db_isValid ;;
  (if negb valid then addDatabase else ret tt) ;;;
  ok <- open ;;
  if negb ok then
    critical "Failed to open database" ;;; ret (mw, ui)
  else
    exec_ CreateTableIfNotExists ;;;
    r <- exec SelectValue ;;
    let counters :=
      fold_left (fun cs row => push_back (Int.toInt row) cs) (snd r) [] in
    let mw' := set_counterManager (setCounters counters (counterManager mw)) mw in
    let t := setRowCount (Int.static_cast_int (length counters)) (tableWidget ui) in
    let t :=
      for_int (Int.static_cast_int (length counters))
        (fun i t => setItem i (number (nth (Z.to_nat i) counters 0)) t) t in
    close ;;;
    ret (mw', {| tableWidget := t; windowHeight := windowHeight ui |}).

(** The constructor up to the start of the worker and the timers. *)
Definition MainWindow_new (d : Desktop) (height : Z) : Qt (MainWindow * Widgets) :=
  r <- loadCountersFromDatabase_widgets (new_MainWindow []) (setupUI height) ;;
  ret (fst r, adjustWindowSize d (snd r)).

(** The destructor, once the worker has been joined. *)
Definition MainWindow_delete : Qt unit := database ;;; close.

(** The table shows the counters: one row per counter, each with the
    counter's value printed. *)
Definition shows (t : QTableWidget) (counters : vector) : Prop :=
  t = map (fun c => Some (number c)) counters.

(** The counters whose [INSERT] the engine carries out, for the verdicts of
    the successive [INSERT]s. *)
Fixpoint inserted (counters : vector) (verdicts : list bool) : list Z :=
  match counters with
  | [] => []
  | value :: counters' =>
      match verdicts with
      | [] => value :: counters'
      | true :: verdicts' => value :: inserted counters' verdicts'
      | false :: verdicts' => inserted counters' verdicts'
      end
  end.

(** The rows of the table [counters], none when the table does not
    exist. *)
Definition rows_of (s : Sqlite) : list Z :=
  match table s with Some rows => rows | None => [] end.

(** What happens to the counters and the table between the constructor
    and the destructor: a click on Add, a click on Delete with the rows of
    the selected items, a firing of [tableTimer], a pass of the worker's
    loop. *)
Inductive Event :=
| AddClicked
| DeleteClicked (selected : list Z)
| TableTimer
| WorkerTick.

Definition handle (d : Desktop) (e : Event) (st : MainWindow * Widgets)
  : MainWindow * Widgets :=
  match e with
  | AddClicked => onAddClicked d (fst st) (snd st)
  | DeleteClicked selected => fst (onDeleteClicked d selected (fst st) (snd st))
  | TableTimer => (fst st, updateTable (fst st) (snd st))
  | WorkerTick =>
      (set_counterManager (incrementAll (counterManager (fst st))) (fst st), snd st)
  end.

Definition run (d : Desktop) (events : list Event) (st : MainWindow * Widgets)
  : MainWindow * Widgets :=
  fold_left (fun st e => handle d e st) events st.

(** The table has as many rows as the store has counters. *)
Definition rows_match (st : MainWindow * Widgets) : Prop :=
  length (tableWidget (snd st)) = length (getCounters (counterManager (fst st))).

(** ** Facts on [int] *)

Lemma wrap_in_range z : Int.in_range (Int.wrap z).
Proof.
  unfold Int.in_range, Int.wrap, Int.min_int, Int.max_int, Int.modulus.
  pose proof (Z.mod_pos_bound (z - -2147483648) 4294967296 eq_refl). lia.
Qed.

Lemma wrap_id z : Int.in_range z -> Int.wrap z = z.
Proof.
  unfold Int.in_range, Int.wrap, Int.min_int, Int.max_int, Int.modulus.
  intros H. rewrite Z.mod_small; lia.
Qed.

Lemma wrap_congruent z : exists k, Int.wrap z = z - k * Int.modulus.
Proof.
  exists ((z - Int.min_int) / Int.modulus). unfold Int.wrap.
  rewrite Z.mod_eq by (unfold Int.modulus; lia). lia.
Qed.

Lemma wrap_mod z : Int.wrap z mod Int.modulus = z mod Int.modulus.
Proof.
  destruct (wrap_congruent z) as [k ->].
  replace (z - k * Int.modulus) with (z + (- k) * Int.modulus) by lia.
  apply Z.mod_add. unfold Int.modulus; lia.
Qed.

Lemma wrap_add_l a b : Int.wrap (Int.wrap a + b) = Int.wrap (a + b).
Proof.
  destruct (wrap_congruent a) as [k Hk]. rewrite Hk. unfold Int.wrap.
  f_equal.
  replace (a - k * Int.modulus + b - Int.min_int)
    with (a + b - Int.min_int + (- k) * Int.modulus) by lia.
  apply Z.mod_add. unfold Int.modulus; lia.
Qed.

Lemma wrap_outside z : ~ Int.in_range z -> Int.wrap z <> z.
Proof.
  intros H E. apply H. rewrite <- E. apply wrap_in_range.
Qed.

Lemma static_cast_int_le n : Int.static_cast_int n <= Z.of_nat n.
Proof.
  unfold Int.static_cast_int.
  destruct (wrap_congruent (Z.of_nat n)) as [k Hk].
  pose proof (wrap_in_range (Z.of_nat n)) as Hr. rewrite Hk in *.
  unfold Int.in_range, Int.min_int, Int.max_int, Int.modulus in *.
  assert (0 <= k) by nia. nia.
Qed.

Lemma static_cast_int_small n :
  Z.of_nat n <= Int.max_int -> Int.static_cast_int n = Z.of_nat n.
Proof.
  intros H. apply wrap_id. unfold Int.in_range, Int.min_int, Int.max_int in *. lia.
Qed.

(** ** The counter store *)

Lemma iter_preincrement N v :
  Int.in_range v -> Nat.iter N Int.preincrement v = Int.wrap (v + Z.of_nat N).
Proof.
  intros Hv. induction N as [|N IH].
  - cbn. rewrite Z.add_0_r. symmetry. now apply wrap_id.
  - rewrite Nat.iter_succ, IH. unfold Int.preincrement, Int.add.
    rewrite wrap_add_l. f_equal. lia.
Qed.

Lemma iter_incrementAll N l :
  counters_ (Nat.iter N incrementAll {| counters_ := l |})
  = map (Nat.iter N Int.preincrement) l.
Proof.
  induction N as [|N IH].
  - cbn. symmetry. apply map_id.
  - rewrite Nat.iter_succ. unfold incrementAll at 1. cbn [counters_].
    rewrite IH, map_map. reflexivity.
Qed.

(** C1, as the code has it: [N] calls of [incrementAll] keep the length and
    turn every element [v] into [v + N] reduced to the 32-bit range of
    [int]; the result is [v + N] itself for every collection whose elements
    stay at or below [INT_MAX] after the [N] increments. *)
Theorem incrementAll_N_times (N : nat) (l : vector) :
  Forall Int.in_range l ->
  length (getCounters (workerThread N {| counters_ := l |})) = length l /\
  getCounters (workerThread N {| counters_ := l |})
  = map (fun v => Int.wrap (v + Z.of_nat N)) l /\
  (Forall (fun v => v + Z.of_nat N <= Int.max_int) l ->
   getCounters (workerThread N {| counters_ := l |})
   = map (fun v => v + Z.of_nat N) l).
Proof.
  intros Hl.
  assert (Hr : getCounters (workerThread N {| counters_ := l |})
               = map (fun v => Int.wrap (v + Z.of_nat N)) l).
  { unfold getCounters, workerThread. rewrite iter_incrementAll.
    apply map_ext_in. intros v Hv. apply iter_preincrement.
    rewrite Forall_forall in Hl. now apply Hl. }
  split; [| split]; trivial.
  - rewrite Hr. apply length_map.
  - intros Hmax. rewrite Hr. apply map_ext_in. intros v Hv.
    rewrite Forall_forall in Hl, Hmax. specialize (Hl v Hv). specialize (Hmax v Hv).
    apply wrap_id. unfold Int.in_range, Int.min_int, Int.max_int in *. lia.
Qed.

Lemma incrementAll_N_times_witness :
  getCounters (workerThread 5 {| counters_ := [0; 0; 0] |}) = [5; 5; 5].
Proof.
  assert (H : Forall Int.in_range [0; 0; 0])
    by (repeat constructor; unfold Int.min_int, Int.max_int; lia).
  destruct (incrementAll_N_times 5 [0; 0; 0] H) as (_ & _ & Hexact).
  apply Hexact. repeat constructor; unfold Int.max_int; lia.
Defined.

(** C1 as the specification words it fails at [INT_MAX]: one call does not
    add one to the value. *)
Lemma incrementAll_at_max_int :
  getCounters (workerThread 1 {| counters_ := [2147483647] |})
  <> map (fun v => v + 1) [2147483647].
Proof. vm_compute. discriminate. Qed.

Lemma nth_error_erase_before pos (v : vector) j :
  (j < pos)%nat -> (pos < length v)%nat ->
  nth_error (erase pos v) j = nth_error v j.
Proof.
  intros Hj Hpos. unfold erase.
  rewrite nth_error_app1 by (rewrite length_firstn; lia).
  rewrite nth_error_firstn.
  destruct (j <? pos)%nat eqn:E; trivial. apply Nat.ltb_ge in E. lia.
Qed.

Lemma nth_error_erase_after pos (v : vector) j :
  (pos <= j)%nat -> (pos < length v)%nat ->
  nth_error (erase pos v) j = nth_error v (S j).
Proof.
  intros Hj Hpos. unfold erase.
  rewrite nth_error_app2 by (rewrite length_firstn; lia).
  rewrite length_firstn, nth_error_skipn. f_equal. lia.
Qed.

Lemma length_erase pos (v : vector) :
  (pos < length v)%nat -> S (length (erase pos v)) = length v.
Proof.
  intros H. unfold erase. rewrite length_app, length_firstn, length_skipn. lia.
Qed.

Lemma deleteCounter_in_range index l :
  0 <= index < Int.static_cast_int (length l) ->
  deleteCounter index {| counters_ := l |}
  = {| counters_ := erase (Z.to_nat index) l |}.
Proof.
  intros [H0 H1]. unfold deleteCounter. cbn [counters_].
  apply Z.leb_le in H0. apply Z.ltb_lt in H1. now rewrite H0, H1.
Qed.

Lemma deleteCounter_out_of_range index l :
  ~ (0 <= index < Int.static_cast_int (length l)) ->
  deleteCounter index {| counters_ := l |} = {| counters_ := l |}.
Proof.
  intros H. unfold deleteCounter. cbn [counters_].
  destruct (0 <=? index) eqn:H0; cbn [andb]; trivial.
  destruct (index <? _) eqn:H1; trivial.
  apply Z.leb_le in H0. apply Z.ltb_lt in H1. lia.
Qed.

(** C2, as the code has it: on a collection of at most [INT_MAX] elements,
    [deleteCounter index] with [0 <= index < length] removes exactly the
    element at [index] and moves the later ones one place left; on every
    collection, an index outside [0, length) leaves it unchanged. *)
Theorem deleteCounter_spec (index : Z) (l : vector) :
  (Z.of_nat (length l) <= Int.max_int ->
   0 <= index < Z.of_nat (length l) ->
   removed_at (Z.to_nat index) l
     (getCounters (deleteCounter index {| counters_ := l |}))) /\
  (~ (0 <= index < Z.of_nat (length l)) ->
   deleteCounter index {| counters_ := l |} = {| counters_ := l |}).
Proof.
  split.
  - intros Hlen Hidx.
    rewrite deleteCounter_in_range by (rewrite static_cast_int_small; lia).
    unfold getCounters. cbn [counters_].
    assert (Hpos : (Z.to_nat index < length l)%nat) by lia.
    repeat split.
    + now apply length_erase.
    + intros j Hj. now apply nth_error_erase_before.
    + intros j Hj. now apply nth_error_erase_after.
  - intros Hout. apply deleteCounter_out_of_range.
    pose proof (static_cast_int_le (length l)). lia.
Qed.

Lemma deleteCounter_spec_witness :
  removed_at 1 [5; 6; 7] (getCounters (deleteCounter 1 {| counters_ := [5; 6; 7] |}))
  /\ deleteCounter 3 {| counters_ := [5; 6; 7] |} = {| counters_ := [5; 6; 7] |}
  /\ deleteCounter (-1) {| counters_ := [5; 6; 7] |} = {| counters_ := [5; 6; 7] |}.
Proof.
  split; [| split].
  - apply (proj1 (deleteCounter_spec 1 [5; 6; 7])); cbn; unfold Int.max_int; lia.
  - apply (proj2 (deleteCounter_spec 3 [5; 6; 7])); cbn; lia.
  - apply (proj2 (deleteCounter_spec (-1) [5; 6; 7])); cbn; lia.
Defined.

(** C2 as the specification words it fails on a collection of [2^31]
    elements: the length converted to [int] is negative, so index [0],
    which is in range, removes nothing. *)
Lemma deleteCounter_huge_collection :
  0 <= 0 < Z.of_nat (length huge_collection) /\
  ~ removed_at 0 huge_collection
      (getCounters (deleteCounter 0 {| counters_ := huge_collection |})).
Proof.
  assert (Hlen : Z.of_nat (length huge_collection) = 2147483648).
  { unfold huge_collection. rewrite repeat_length. apply Z2Nat.id. lia. }
  split; [lia |].
  rewrite deleteCounter_out_of_range.
  - unfold getCounters. cbn [counters_]. intros (Hl & _). lia.
  - unfold Int.static_cast_int. rewrite Hlen.
    change (Int.wrap 2147483648) with (-2147483648). lia.
Qed.

(** C3: [setCounters X] followed by [getCounters] returns [X]. *)
Theorem setCounters_getCounters (X : vector) (m : CounterManager) :
  getCounters (setCounters X m) = X.
Proof. reflexivity. Qed.

(** C7, as the code has it: [incrementAll] and [getCounters] keep the
    length; [addCounter] adds one to it, [deleteCounter] never raises it,
    and [setCounters] makes it the length of the collection it installs. *)
Theorem length_by_operation (o : Op) (m : CounterManager) :
  match o with
  | OpIncrementAll | OpSnapshot => size (fst (run_op o m)) = size m
  | OpAdd _ => size (fst (run_op o m)) = S (size m)
  | OpRemove _ => (size (fst (run_op o m)) <= size m)%nat
  | OpReplaceAll counters => size (fst (run_op o m)) = length counters
  end.
Proof.
  destruct m as [l]. destruct o as [value | index | | | counters]; cbn; unfold size; cbn.
  - unfold push_back. rewrite length_app. cbn. lia.
  - unfold deleteCounter. cbn [counters_].
    destruct (_ && _) eqn:E; cbn [counters_]; [| lia].
    apply andb_prop in E as [H0 H1]. apply Z.leb_le in H0. apply Z.ltb_lt in H1.
    pose proof (static_cast_int_le (length l)).
    assert (Hpos : (Z.to_nat index < length l)%nat) by lia.
    pose proof (length_erase _ _ Hpos). lia.
  - apply length_map.
  - reflexivity.
  - reflexivity.
Qed.

(** C7 as the specification words it fails for [replaceAll]: installing a
    one-element collection in an empty store changes the length. *)
Lemma setCounters_changes_length :
  size (fst (run_op (OpReplaceAll [0]) {| counters_ := [] |}))
  <> size {| counters_ := [] |}.
Proof. cbn. discriminate. Qed.

(** ** The sampled sum *)

Lemma fold_left_add_wrap (v : vector) (a : Z) :
  fold_left Int.add v (Int.wrap a) = Int.wrap (a + exact_sum v).
Proof.
  revert a. unfold exact_sum.
  induction v as [|x v IH]; intros a; cbn [fold_left fold_right].
  - now rewrite Z.add_0_r.
  - replace (Int.add (Int.wrap a) x) with (Int.wrap (a + x))
      by (unfold Int.add; now rewrite wrap_add_l).
    rewrite IH. f_equal. lia.
Qed.

Lemma accumulate_wrap (v : vector) : accumulate v = Int.wrap (exact_sum v).
Proof.
  unfold accumulate. change 0 with (Int.wrap 0) at 1.
  now rewrite fold_left_add_wrap.
Qed.

(** C10: the sum [updateFrequency] samples is accumulated in [int]: when
    the exact sum of the counters is outside the [int] range, the sampled
    value is that sum reduced modulo [2^32] to the two's complement range,
    and differs from the exact sum. *)
Theorem currentSum_wraps (mw : MainWindow) :
  ~ Int.in_range (exact_sum (getCounters (counterManager mw))) ->
  currentSum mw = to_double (Int.wrap (exact_sum (getCounters (counterManager mw)))) /\
  Int.in_range (Int.wrap (exact_sum (getCounters (counterManager mw)))) /\
  Int.wrap (exact_sum (getCounters (counterManager mw))) mod 2 ^ 32
  = exact_sum (getCounters (counterManager mw)) mod 2 ^ 32 /\
  ~ (currentSum mw == to_double (exact_sum (getCounters (counterManager mw))))%Q.
Proof.
  intros Hout. unfold currentSum.
  rewrite accumulate_wrap. repeat split.
  - apply wrap_in_range.
  - apply wrap_in_range.
  - apply wrap_mod.
  - unfold to_double. rewrite inject_Z_injective. now apply wrap_outside.
Qed.

Lemma currentSum_wraps_witness :
  currentSum (new_MainWindow [2147483647; 1]) = to_double (-2147483648).
Proof.
  apply (currentSum_wraps (new_MainWindow [2147483647; 1])).
  cbn. unfold Int.in_range, Int.min_int, Int.max_int. lia.
Defined.

(** ** Rounding to binary64 *)

Lemma pow2_pos (k : Z) : (0 < 2 ^ k)%Q.
Proof. apply Qpower_0_lt. reflexivity. Qed.

Lemma pow2_succ (k : Z) : (2 ^ (k + 1) == 2 * 2 ^ k)%Q.
Proof. rewrite Qpower_plus by discriminate. simpl (2 ^ 1)%Q. ring. Qed.

Lemma pow2_plus (a b : Z) : (2 ^ (a + b) == 2 ^ a * 2 ^ b)%Q.
Proof. apply Qpower_plus. discriminate. Qed.

Lemma pow2_le (a b : Z) : a <= b -> (2 ^ a <= 2 ^ b)%Q.
Proof. intros H. apply Qpower_le_compat_l; [assumption | discriminate]. Qed.

Lemma pow2_lt_inv (a b : Z) : (2 ^ a < 2 ^ b)%Q -> a < b.
Proof. intros H. apply (Qpower_lt_compat_l_inv 2); [assumption | reflexivity]. Qed.

(** [ilog2] finds the binade. *)
Lemma ilog2_spec (q : Q) :
  (0 < q)%Q -> (2 ^ ilog2 q <= q)%Q /\ (q < 2 ^ (ilog2 q + 1))%Q.
Proof.
  intros Hq. destruct q as [n d]. unfold ilog2. cbn [Qnum Qden].
  assert (Hn : 0 < n) by (unfold Qlt in Hq; cbn in Hq; lia).
  destruct (Z.log2_spec n Hn) as [Hn1 Hn2].
  destruct (Z.log2_spec (Zpos d) eq_refl) as [Hd1 Hd2].
  pose proof (Z.log2_nonneg n) as Ha. pose proof (Z.log2_nonneg (Zpos d)) as Hb.
  set (a := Z.log2 n) in *. set (b := Z.log2 (Zpos d)) in *.
  assert (Hqa1 : (2 ^ a <= inject_Z n)%Q).
  { rewrite <- (Zpower_Qpower 2 a) by assumption. now rewrite <- Zle_Qle. }
  assert (Hqa2 : (inject_Z n < 2 ^ (a + 1))%Q).
  { rewrite <- (Zpower_Qpower 2 (a + 1)) by lia. rewrite <- Zlt_Qlt.
    now rewrite <- Z.add_1_r in Hn2. }
  assert (Hqb1 : (2 ^ b <= inject_Z (Zpos d))%Q).
  { rewrite <- (Zpower_Qpower 2 b) by assumption. now rewrite <- Zle_Qle. }
  assert (Hqb2 : (inject_Z (Zpos d) < 2 ^ (b + 1))%Q).
  { rewrite <- (Zpower_Qpower 2 (b + 1)) by lia. rewrite <- Zlt_Qlt.
    now rewrite <- Z.add_1_r in Hd2. }
  assert (Hq' : (n # d == inject_Z n / inject_Z (Zpos d))%Q) by apply Qmake_Qdiv.
  assert (Hd0 : (0 < inject_Z (Zpos d))%Q) by reflexivity.
  pose proof (pow2_pos (a - b)) as Hk. pose proof (pow2_pos b) as Hpb.
  assert (Hab : (2 ^ a == 2 ^ (a - b) * 2 ^ b)%Q).
  { rewrite <- pow2_plus. now replace (a - b + b) with a by lia. }
  assert (Hup : (n # d < 2 ^ (a - b + 1))%Q).
  { rewrite Hq'. apply Qlt_shift_div_r; trivial.
    rewrite pow2_succ. rewrite pow2_succ, Hab in Hqa2. nra. }
  assert (Hlow : (2 ^ (a - b - 1) <= n # d)%Q).
  { rewrite Hq'. apply Qle_shift_div_l; trivial.
    assert (Hs : (2 ^ (a - b) == 2 * 2 ^ (a - b - 1))%Q).
    { rewrite <- pow2_succ. now replace (a - b - 1 + 1) with (a - b) by lia. }
    rewrite pow2_succ in Hqb2. pose proof (pow2_pos (a - b - 1)). nra. }
  destruct (Qle_bool (2 ^ (a - b)) (n # d)) eqn:E.
  - apply Qle_bool_iff in E. split; assumption.
  - split; [assumption |].
    replace (a - b - 1 + 1) with (a - b) by lia.
    apply Qnot_le_lt. intros H. apply Qle_bool_iff in H. congruence.
Qed.

(** [round_half_even y] is within one half of [y]. *)
Lemma round_half_even_spec (y : Q) :
  (inject_Z (round_half_even y) - y <= 1 # 2)%Q /\
  (y - inject_Z (round_half_even y) <= 1 # 2)%Q /\
  Qfloor y <= round_half_even y.
Proof.
  unfold round_half_even.
  pose proof (Qfloor_le y) as Hf1. pose proof (Qlt_floor y) as Hf2.
  set (f := Qfloor y) in *.
  assert (Hf3 : (inject_Z (f + 1) == inject_Z f + 1)%Q)
    by (rewrite inject_Z_plus; reflexivity).
  destruct (Qcompare_spec (y - inject_Z f) (1 # 2)) as [E | E | E].
  - destruct (Z.even f); repeat split; try lia; lra.
  - repeat split; try lia; lra.
  - repeat split; try lia; lra.
Qed.

Lemma round_half_even_ge (y : Q) (k : Z) :
  (inject_Z k <= y)%Q -> k <= round_half_even y.
Proof.
  intros H. destruct (round_half_even_spec y) as (_ & _ & Hf).
  apply Qfloor_resp_le in H. rewrite Qfloor_Z in H. lia.
Qed.

Lemma round_half_even_Z (y : Q) (k : Z) :
  (y == inject_Z k)%Q -> round_half_even y = k.
Proof.
  intros H. unfold round_half_even.
  assert (Hf : Qfloor y = k).
  { rewrite <- (Qfloor_Z k). apply Z.le_antisymm; apply Qfloor_resp_le; rewrite H;
      apply Qle_refl. }
  rewrite Hf.
  destruct (Qcompare_spec (y - inject_Z k) (1 # 2)) as [E | E | E]; trivial; lra.
Qed.

Lemma round_positive_nonneg (q : Q) : (0 < q)%Q -> (0 <= round_positive q)%Q.
Proof.
  intros Hq. unfold round_positive.
  set (x := Z.max (ilog2 q - 52) (-1074)).
  pose proof (pow2_pos x) as Hx.
  assert (Hy : (inject_Z 0 <= q / 2 ^ x)%Q).
  { apply Qle_shift_div_l; trivial. change (inject_Z 0) with 0%Q. lra. }
  apply round_half_even_ge in Hy. rewrite Zle_Qle in Hy.
  change (inject_Z 0) with 0%Q in Hy. nra.
Qed.

(** On the normal range a rounding stays in the binade and is within the
    relative error [ulp_half]. *)
Lemma round_positive_normal (q : Q) :
  (2 ^ (-1022) <= q)%Q ->
  (2 ^ ilog2 q <= round_positive q)%Q /\
  (q * (1 - ulp_half) <= round_positive q)%Q /\
  (round_positive q <= q * (1 + ulp_half))%Q.
Proof.
  intros Hmin. pose proof (pow2_pos (-1022)) as Hp.
  assert (Hq : (0 < q)%Q) by lra.
  destruct (ilog2_spec q Hq) as [He1 He2].
  assert (He : -1022 <= ilog2 q).
  { assert (H : (2 ^ (-1022) < 2 ^ (ilog2 q + 1))%Q) by lra.
    apply pow2_lt_inv in H. lia. }
  unfold round_positive. rewrite Z.max_l by lia.
  set (e := ilog2 q) in *. set (x := e - 52).
  pose proof (pow2_pos x) as Hx.
  assert (Hex : (2 ^ e == 2 ^ 52 * 2 ^ x)%Q).
  { rewrite <- pow2_plus. unfold x. now replace (52 + (e - 52)) with e by lia. }
  set (y := (q / 2 ^ x)%Q).
  assert (Hyq : (y * 2 ^ x == q)%Q) by (unfold y; field; lra).
  destruct (round_half_even_spec y) as (Hm1 & Hm2 & _).
  assert (Hy52 : (inject_Z (2 ^ 52) <= y)%Q).
  { unfold y. apply Qle_shift_div_l; trivial.
    rewrite (Zpower_Qpower 2 52) by lia. change (inject_Z 2) with 2%Q. lra. }
  apply round_half_even_ge in Hy52. rewrite Zle_Qle in Hy52.
  rewrite (Zpower_Qpower 2 52) in Hy52 by lia. change (inject_Z 2) with 2%Q in Hy52.
  set (m := inject_Z (round_half_even y)) in *.
  assert (Hu : (ulp_half * 2 ^ 52 == 1 # 2)%Q) by reflexivity.
  unfold ulp_half in *.
  set (p52 := (2 ^ 52)%Q) in *. set (u := (2 ^ (-53))%Q) in *.
  set (px := (2 ^ x)%Q) in *.
  assert (Hp52 : (0 < p52)%Q) by apply pow2_pos.
  assert (Hupos : (0 < u)%Q) by apply pow2_pos.
  repeat split.
  - rewrite Hex. nra.
  - assert (q - m * px <= (1 # 2) * px)%Q by nra.
    assert ((1 # 2) * px <= q * u)%Q by nra. lra.
  - assert (m * px - q <= (1 # 2) * px)%Q by nra.
    assert ((1 # 2) * px <= q * u)%Q by nra. lra.
Qed.

Lemma Qred_inject_Z (z : Z) : Qred (inject_Z z) = inject_Z z.
Proof.
  unfold Qred, inject_Z.
  pose proof (Z.ggcd_gcd z 1) as Hg. pose proof (Z.ggcd_correct_divisors z 1) as Hd.
  destruct (Z.ggcd z 1) as [g [a b]]. cbn [fst snd] in *.
  rewrite Z.gcd_1_r in Hg. subst g. destruct Hd as [Ha Hb].
  rewrite Z.mul_1_l in Ha, Hb. now subst.
Qed.

Lemma round64_pos (q : Q) : (0 < q)%Q -> (round64 q == round_positive q)%Q.
Proof.
  intros Hq. unfold round64. rewrite Qred_correct.
  destruct (Qcompare_spec q 0) as [E | E | E]; first [lra | reflexivity].
Qed.

Lemma round64_neg (q : Q) : (q < 0)%Q -> (round64 q == - round_positive (- q))%Q.
Proof.
  intros Hq. unfold round64. rewrite Qred_correct.
  destruct (Qcompare_spec q 0) as [E | E | E]; first [lra | reflexivity].
Qed.

Lemma round64_zero (q : Q) : (q == 0)%Q -> round64 q = 0%Q.
Proof.
  intros Hq. unfold round64.
  destruct (Qcompare_spec q 0) as [E | E | E]; first [lra | reflexivity].
Qed.

(** Sign and accuracy of a rounding on the normal range. *)
Lemma round64_normal_pos (q : Q) :
  (2 ^ (-1022) <= q)%Q ->
  (0 < round64 q)%Q /\
  (q * (1 - ulp_half) <= round64 q)%Q /\ (round64 q <= q * (1 + ulp_half))%Q.
Proof.
  intros Hmin. pose proof (pow2_pos (-1022)) as Hp.
  destruct (round_positive_normal q Hmin) as (H1 & H2 & H3).
  pose proof (pow2_pos (ilog2 q)).
  rewrite round64_pos by lra. repeat split; lra.
Qed.

Lemma round64_normal_neg (q : Q) :
  (q <= - 2 ^ (-1022))%Q ->
  (round64 q < 0)%Q /\
  (q * (1 + ulp_half) <= round64 q)%Q /\ (round64 q <= q * (1 - ulp_half))%Q.
Proof.
  intros Hmin. pose proof (pow2_pos (-1022)) as Hp.
  assert (Hmin' : (2 ^ (-1022) <= - q)%Q) by lra.
  destruct (round_positive_normal (- q) Hmin') as (H1 & H2 & H3).
  pose proof (pow2_pos (ilog2 (- q))).
  rewrite round64_neg by lra. repeat split; lra.
Qed.

Lemma round64_nonpos (q : Q) : (q <= 0)%Q -> (round64 q <= 0)%Q.
Proof.
  intros Hq. destruct (Qlt_le_dec q 0) as [Hlt | Hge].
  - rewrite round64_neg by assumption.
    assert (H : (0 < - q)%Q) by lra. apply round_positive_nonneg in H. lra.
  - rewrite round64_zero by lra. lra.
Qed.

Lemma round64_ge_1 (q : Q) : (1 <= q)%Q -> (1 <= round64 q)%Q.
Proof.
  intros Hq. assert (Hmin : (2 ^ (-1022) <= q)%Q).
  { assert (2 ^ (-1022) <= 1)%Q by (apply (pow2_le (-1022) 0); lia). lra. }
  destruct (round_positive_normal q Hmin) as (H1 & _).
  assert (H0 : (0 < q)%Q) by lra. destruct (ilog2_spec q H0) as [_ He].
  assert (0 <= ilog2 q).
  { assert (H : (2 ^ 0 < 2 ^ (ilog2 q + 1))%Q) by (change (2 ^ 0)%Q with 1%Q; lra).
    apply pow2_lt_inv in H. lia. }
  assert (Hp : (2 ^ 0 <= 2 ^ ilog2 q)%Q) by (apply pow2_le; lia).
  change (2 ^ 0)%Q with 1%Q in Hp. rewrite round64_pos by lra. lra.
Qed.

(** Integers below [2^53] in absolute value are binary64 numbers. *)
Lemma round_positive_int (z : Z) :
  0 < z < 2 ^ 53 -> (round_positive (inject_Z z) == inject_Z z)%Q.
Proof.
  intros Hz. set (q := inject_Z z).
  assert (Hq : (0 < q)%Q) by (unfold q; rewrite <- (Zlt_Qlt 0); lia).
  destruct (ilog2_spec q Hq) as [He1 He2].
  assert (He : 0 <= ilog2 q <= 52).
  { split.
    - assert (H : (2 ^ 0 < 2 ^ (ilog2 q + 1))%Q).
      { change (2 ^ 0)%Q with (inject_Z 1).
        assert (inject_Z 1 <= q)%Q by (unfold q; rewrite <- Zle_Qle; lia). lra. }
      apply pow2_lt_inv in H. lia.
    - assert (H : (2 ^ ilog2 q < 2 ^ 53)%Q).
      { assert (H : (q < inject_Z (2 ^ 53))%Q) by (unfold q; rewrite <- Zlt_Qlt; lia).
        rewrite (Zpower_Qpower 2 53) in H by lia. change (inject_Z 2) with 2%Q in H.
        lra. }
      apply pow2_lt_inv in H. lia. }
  unfold round_positive. rewrite Z.max_l by lia.
  set (x := ilog2 q - 52).
  pose proof (pow2_pos x) as Hx.
  assert (Hinv : (2 ^ x * inject_Z (2 ^ (- x)) == 1)%Q).
  { rewrite (Zpower_Qpower 2 (- x)) by lia. change (inject_Z 2) with 2%Q.
    rewrite <- pow2_plus. now replace (x + - x) with 0 by lia. }
  assert (Hy : (q / 2 ^ x == inject_Z (z * 2 ^ (- x)))%Q).
  { rewrite inject_Z_mult. fold q.
    assert (Hpx : ~ (2 ^ x == 0)%Q) by lra.
    rewrite <- (Qmult_1_r (q / 2 ^ x)), <- Hinv. field. exact Hpx. }
  rewrite (round_half_even_Z _ _ Hy), inject_Z_mult. fold q.
  rewrite <- Qmult_assoc, (Qmult_comm (inject_Z _)), Hinv. ring.
Qed.

Lemma round64_int (z : Z) :
  - 2 ^ 53 < z < 2 ^ 53 -> round64 (inject_Z z) = inject_Z z.
Proof.
  intros Hz. rewrite <- (Qred_inject_Z z) at 2. unfold round64. apply Qred_complete.
  destruct (Qcompare_spec (inject_Z z) 0) as [E | E | E].
  - now symmetry.
  - assert (Hneg : z < 0) by (rewrite Zlt_Qlt; exact E).
    assert (H : 0 < - z < 2 ^ 53) by lia.
    apply round_positive_int in H. rewrite <- inject_Z_opp, H, inject_Z_opp. ring.
  - assert (Hpos : 0 < z) by (rewrite Zlt_Qlt; exact E).
    apply round_positive_int. lia.
Qed.

(** The rounding on some values: a quotient that binary64 does not hold,
    the two ties above [2^53], a subnormal number, and the least positive
    number, which half of itself rounds away from. *)
Example round64_values :
  round64 (1 # 3) = (6004799503160661 # 18014398509481984)%Q /\
  round64 (inject_Z (2 ^ 53 + 1)) = inject_Z (2 ^ 53) /\
  round64 (inject_Z (2 ^ 53 + 3)) = inject_Z (2 ^ 53 + 4) /\
  (round64 (3 * 2 ^ (-1075)) == 2 * 2 ^ (-1074))%Q /\
  round64 (2 ^ (-1075)) = 0%Q /\
  fdiv (to_double 1) (fdiv (to_double 3) (to_double 1000))
  = (5864062014805333 # 17592186044416)%Q.
Proof. vm_compute. repeat split. Qed.

(** [round64] gives what the machine computes: on the conversion of the
    64-bit integers around [2^53], [2^60] and [2^63 - 1], where it rounds,
    and on the rate of [updateFrequency] for the sums from [-8] to [8]
    against [0] and [INT_MIN], [INT_MAX] and the times from 1 ms to 200 ms,
    of two and three seconds, and around an hour and a month. *)
Example round64_as_the_machine :
  forallb (fun z => denotes (float_of_Z z) (qint64_to_double z))
    (Zseq (2 ^ 53 - 20) 60 ++ Zseq (2 ^ 60 - 300) 600 ++ Zseq (2 ^ 63 - 600) 600)
  = true /\
  forallb (fun e =>
    forallb (fun S1 => denotes (machine_rate 0 S1 e) (computed_rate 0 S1 e))
      (Zseq (-8) 17 ++ [Int.min_int; Int.max_int]))
    (Zseq 1 200 ++ [2000; 3000] ++ Zseq 3599990 20 ++ Zseq 2591999990 20)
  = true /\
  forallb (fun e =>
    denotes (machine_rate Int.max_int Int.min_int e)
            (computed_rate Int.max_int Int.min_int e))
    (Zseq 1 200)
  = true.
Proof. vm_compute. repeat split. Qed.

(** ** The rate estimator *)

Lemma relative_error (u e a T X r q D : Q) :
  (0 < u)%Q -> (u <= 1 # 8)%Q -> (0 < e)%Q ->
  (e * (1 - u) <= a)%Q -> (a <= e * (1 + u))%Q ->
  (a / 1000 * (1 - u) <= T)%Q -> (T <= a / 1000 * (1 + u))%Q ->
  (X * T == D)%Q -> (0 < D)%Q ->
  (X * (1 - u) <= r)%Q -> (r <= X * (1 + u))%Q ->
  (q * e == 1000 * D)%Q ->
  (q * (1 - 4 * u) <= r)%Q /\ (r <= q * (1 + 4 * u))%Q.
Proof.
  intros Hu0 Hu1 He Ha1 Ha2 HT1 HT2 HX HD Hr1 Hr2 Hq.
  assert (Ha : (a / 1000 == a * (1 # 1000))%Q) by (field).
  rewrite Ha in HT1, HT2. clear Ha.
  assert (HT1' : (e * ((1 - u) * (1 - u)) <= 1000 * T)%Q) by nra.
  assert (HT2' : (1000 * T <= e * ((1 + u) * (1 + u)))%Q) by nra.
  assert (HT0 : (0 < T)%Q) by nra.
  assert (HX0 : (0 < X)%Q) by nra.
  assert (Hq0 : (0 < q)%Q) by nra.
  assert (HXq1 : (X * ((1 - u) * (1 - u)) <= q)%Q).
  { assert (X * (e * ((1 - u) * (1 - u))) <= q * e)%Q by nra. nra. }
  assert (HXq2 : (q <= X * ((1 + u) * (1 + u)))%Q).
  { assert (q * e <= X * (e * ((1 + u) * (1 + u))))%Q by nra. nra. }
  split.
  - assert (q * (1 - u) <= r * ((1 + u) * (1 + u)))%Q by nra.
    assert ((1 - 4 * u) * ((1 + u) * (1 + u)) <= 1 - u)%Q by nra.
    nra.
  - assert (r * ((1 - u) * (1 - u)) <= q * (1 + u))%Q by nra.
    assert (1 + u <= (1 + 4 * u) * ((1 - u) * (1 - u)))%Q by nra.
    nra.
Qed.


Lemma to_double_sub (a b : Z) : (to_double a - to_double b)%Q = to_double (a - b).
Proof.
  unfold to_double, inject_Z, Qminus, Qplus, Qopp. cbn [Qnum Qden].
  now rewrite !Z.mul_1_r.
Qed.

Lemma fsub_int (a b : Z) :
  - 2 ^ 53 < a - b < 2 ^ 53 -> fsub (to_double a) (to_double b) = to_double (a - b).
Proof.
  intros H. unfold fsub. rewrite to_double_sub. now apply round64_int.
Qed.

Lemma ulp_half_small : (0 < ulp_half)%Q /\ (ulp_half <= 1 # 8)%Q.
Proof.
  split; [apply pow2_pos |].
  change (1 # 8)%Q with (2 ^ (-3))%Q. apply pow2_le. lia.
Qed.

Lemma timeDiff_bounds (e : Z) :
  0 < e ->
  let a := qint64_to_double e in
  let T := fdiv a (to_double 1000) in
  (inject_Z e * (1 - ulp_half) <= a)%Q /\ (a <= inject_Z e * (1 + ulp_half))%Q /\
  (a / 1000 * (1 - ulp_half) <= T)%Q /\ (T <= a / 1000 * (1 + ulp_half))%Q /\
  (0 < T)%Q.
Proof.
  intros He a T.
  assert (He1 : (1 <= inject_Z e)%Q) by (rewrite <- (Zle_Qle 1); lia).
  assert (Hp0 : (2 ^ (-1022) <= 2 ^ (-10))%Q) by (apply pow2_le; lia).
  assert (Hp1 : (2 ^ (-10) == 1 # 1024)%Q) by reflexivity.
  assert (Hmin : (2 ^ (-1022) <= inject_Z e)%Q) by lra.
  destruct (round64_normal_pos _ Hmin) as (_ & Ha1 & Ha2).
  pose proof (round64_ge_1 _ He1) as Ha0.
  fold (qint64_to_double e) in Ha0, Ha1, Ha2. fold a in Ha0, Ha1, Ha2.
  assert (Hq : (a / to_double 1000 == a * (1 # 1000))%Q) by (unfold to_double; field).
  assert (Hmin' : (2 ^ (-1022) <= a / to_double 1000)%Q) by (rewrite Hq; lra).
  destruct (round64_normal_pos _ Hmin') as (HT0 & HT1 & HT2).
  fold (fdiv a (to_double 1000)) in HT0, HT1, HT2. fold T in HT0, HT1, HT2.
  change (to_double 1000) with (1000 : Q) in HT1, HT2.
  repeat split; assumption.
Qed.

Lemma timeDiff_guard (e : Z) :
  Qle_bool (fdiv (qint64_to_double e) (to_double 1000)) 0 = (e <=? 0).
Proof.
  destruct (Z.leb_spec e 0) as [Hle | Hlt].
  - apply Qle_bool_iff. unfold fdiv, qint64_to_double. apply round64_nonpos.
    assert (Ha : (round64 (inject_Z e) <= 0)%Q).
    { apply round64_nonpos. rewrite Zle_Qle in Hle. exact Hle. }
    set (a := round64 (inject_Z e)) in *.
    assert (Hq : (a / to_double 1000 == a * (1 # 1000))%Q) by (unfold to_double; field).
    rewrite Hq. lra.
  - destruct (timeDiff_bounds e Hlt) as (_ & _ & _ & _ & HT).
    destruct (Qle_bool _ 0) eqn:E; trivial.
    apply Qle_bool_iff in E. lra.
Qed.

(** The three roundings of [computed_rate] on two [int] sums and a
    positive [qint64] time: the result is within [tolerance] of the exact
    quotient, relatively, and has its sign. *)
Lemma computed_rate_accurate (S0 S1 e : Z) :
  Int.in_range S0 -> Int.in_range S1 -> 0 < e < 2 ^ 63 ->
  let exact := (inject_Z ((S1 - S0) * 1000) / inject_Z e)%Q in
  (Qabs (computed_rate S0 S1 e - exact) <= tolerance * Qabs exact)%Q /\
  (S1 < S0 -> (computed_rate S0 S1 e < 0)%Q) /\
  (S0 < S1 -> (0 < computed_rate S0 S1 e)%Q) /\
  (S1 = S0 -> computed_rate S0 S1 e = 0%Q).
Proof.
  intros H0 H1 He exact. unfold computed_rate.
  unfold Int.in_range, Int.min_int, Int.max_int in H0, H1.
  rewrite fsub_int by lia.
  destruct (timeDiff_bounds e (proj1 He)) as (Ha1 & Ha2 & HT1 & HT2 & HT0).
  set (a := qint64_to_double e) in *.
  set (T := fdiv a (to_double 1000)) in *.
  destruct ulp_half_small as [Hu0 Hu1].
  assert (Htol : (tolerance == 4 * ulp_half)%Q) by reflexivity.
  assert (HeQ : (0 < inject_Z e)%Q) by (rewrite <- (Zlt_Qlt 0); lia).
  assert (Hexact : (exact * inject_Z e == 1000 * inject_Z (S1 - S0))%Q).
  { unfold exact. rewrite inject_Z_mult. change (inject_Z 1000) with (1000 : Q).
    field. lra. }
  (* the quotient is in the normal range *)
  assert (HTmax : (2 ^ (-1022) * T <= 1)%Q).
  { assert (He63 : (inject_Z e <= 2 ^ 63)%Q).
    { rewrite <- (Zpower_Qpower 2 63) by lia. rewrite <- Zle_Qle. lia. }
    assert (Hp : (2 ^ (-1022) <= 2 ^ (-64))%Q) by (apply pow2_le; lia).
    assert (Hp' : (2 ^ (-64) * (2 * 2 ^ 63) == 1)%Q).
    { rewrite <- pow2_succ, <- pow2_plus. reflexivity. }
    pose proof (pow2_pos (-1022)). pose proof (pow2_pos (-64)).
    set (p := (2 ^ (-1022))%Q) in *. set (p64 := (2 ^ (-64))%Q) in *.
    set (p63 := (2 ^ 63)%Q) in *. set (u := ulp_half) in *.
    assert (Ha : (a / 1000 == a * (1 # 1000))%Q) by field.
    rewrite Ha in HT2.
    assert (T <= 2 * p63)%Q by nra. nra. }
  set (D := S1 - S0) in *. unfold to_double at 1.
  unfold fdiv at 1.
  assert (HX : (inject_Z D / T * T == inject_Z D)%Q) by (field; lra).
  destruct (Z.lt_trichotomy D 0) as [Hneg | [Hzero | Hpos]].
  - assert (HD : (inject_Z D <= inject_Z (-1))%Q) by (rewrite <- Zle_Qle; lia).
    change (inject_Z (-1)) with (-1)%Q in HD.
    assert (Hmin : (inject_Z D / T <= - 2 ^ (-1022))%Q).
    { apply Qle_shift_div_r; trivial. set (p := (2 ^ (-1022))%Q) in *. nra. }
    destruct (round64_normal_neg _ Hmin) as (Hr0 & Hr1 & Hr2).
    set (X := (inject_Z D / T)%Q) in *. set (r := round64 X) in *.
    destruct (relative_error ulp_half (inject_Z e) a T (- X) (- r) (- exact)
                (- inject_Z D)) as [B1 B2]; try assumption; try lra.
    repeat split; try lia.
    + assert (exact < 0)%Q by nra.
      rewrite (Qabs_neg exact) by lra. apply Qabs_Qle_condition. rewrite Htol.
      split; lra.
    + intros _. exact Hr0.
  - rewrite Hzero in *.
    assert (Hr : round64 (inject_Z 0 / T) = 0%Q).
    { apply round64_zero. change (inject_Z 0) with 0%Q. field. lra. }
    rewrite Hr. repeat split; try lia.
    assert (exact == 0)%Q.
    { change (inject_Z 0) with 0%Q in Hexact. nra. }
    apply Qabs_Qle_condition. rewrite (Qabs_pos exact) by lra. rewrite Htol.
    split; nra.
  - assert (HD : (inject_Z 1 <= inject_Z D)%Q) by (rewrite <- Zle_Qle; lia).
    change (inject_Z 1) with 1%Q in HD.
    assert (Hmin : (2 ^ (-1022) <= inject_Z D / T)%Q).
    { apply Qle_shift_div_l; trivial. set (p := (2 ^ (-1022))%Q) in *. nra. }
    destruct (round64_normal_pos _ Hmin) as (Hr0 & Hr1 & Hr2).
    set (X := (inject_Z D / T)%Q) in *. set (r := round64 X) in *.
    destruct (relative_error ulp_half (inject_Z e) a T X r exact
                (inject_Z D)) as [B1 B2]; try assumption; try lra.
    repeat split; try lia.
    + assert (0 < exact)%Q by nra.
      rewrite (Qabs_pos exact) by lra. apply Qabs_Qle_condition. rewrite Htol.
      split; lra.
    + intros _. exact Hr0.
Qed.

Lemma updateFrequency_unarmed now later mw :
  isValid (elapsedTimer mw) = false ->
  updateFrequency now later mw
  = ({| counterManager := counterManager mw;
        elapsedTimer := {| t_start := Some now |};
        previousSum := currentSum mw;
        freqLabel := freqLabel mw |}, None).
Proof. intros H. unfold updateFrequency. now rewrite H. Qed.

Lemma updateFrequency_armed now later mw t0 :
  t_start (elapsedTimer mw) = Some t0 -> t0 < now ->
  let frequency :=
    fdiv (fsub (currentSum mw) (previousSum mw))
         (fdiv (qint64_to_double (now - t0)) (to_double 1000)) in
  updateFrequency now later mw
  = ({| counterManager := counterManager mw;
        elapsedTimer := {| t_start := Some later |};
        previousSum := currentSum mw;
        freqLabel := FrequencyHz frequency |}, Some frequency).
Proof.
  intros Ht Hlt frequency. unfold updateFrequency, isValid, elapsed.
  rewrite Ht. cbn [negb]. rewrite timeDiff_guard.
  destruct (now - t0 <=? 0) eqn:E; [apply Z.leb_le in E; lia | reflexivity].
Qed.

Lemma rate_value (S0 S1 e : Z) :
  0 < e ->
  ((to_double S1 - to_double S0) / (to_double e / to_double 1000)
   == ((S1 - S0) * 1000) # Z.to_pos e)%Q.
Proof.
  intros He. unfold to_double.
  destruct e as [|p|p]; try lia. cbn [Z.to_pos].
  unfold Qeq, Qdiv, Qminus, Qplus, Qopp, Qmult, Qinv, inject_Z. cbn. lia.
Qed.

Lemma rate_quotient (S0 t0 S1 t1 : Z) :
  t0 < t1 ->
  (rate S0 t0 S1 t1 == inject_Z ((S1 - S0) * 1000) / inject_Z (t1 - t0))%Q.
Proof.
  intros Hlt. unfold rate. rewrite rate_value by lia.
  rewrite (Qmake_Qdiv ((S1 - S0) * 1000) (Z.to_pos (t1 - t0))).
  now rewrite Z2Pos.id by lia.
Qed.

Lemma accumulate_in_range (v : vector) : Int.in_range (accumulate v).
Proof. rewrite accumulate_wrap. apply wrap_in_range. Qed.

(** The rate a tick computes is within [tolerance] of the specification's
    rate, and negative when the sum went down. *)
Lemma computed_rate_near_rate (S0 t0 S1 t1 : Z) :
  Int.in_range S0 -> Int.in_range S1 -> t0 < t1 -> t1 - t0 < 2 ^ 63 ->
  (Qabs (computed_rate S0 S1 (t1 - t0) - rate S0 t0 S1 t1)
   <= tolerance * Qabs (rate S0 t0 S1 t1))%Q /\
  (S1 < S0 -> (computed_rate S0 S1 (t1 - t0) < 0)%Q).
Proof.
  intros H0 H1 Hlt Hmax.
  assert (He : 0 < t1 - t0 < 2 ^ 63) by lia.
  destruct (computed_rate_accurate S0 S1 (t1 - t0) H0 H1 He) as (Hnear & Hneg & _).
  split; [| exact Hneg].
  cbv zeta in Hnear. now rewrite (rate_quotient S0 t0 S1 t1 Hlt).
Qed.

(** C4 as stated fails on the code.  With the sum [0] recorded at time
    [1000], one counter at [1], [elapsed] reading the clock at [4000] and
    [restart] reading it at [4002], the tick writes the binary64 number
    nearest to one third, which is not the rate [1 / 3] of the two
    samples, and records the time [4002], not the time of the tick. *)
Lemma updateFrequency_not_exact :
  updateFrequency 4000 4002
    (window {| counters_ := [1] |} (Some 1000) (to_double 0) FrequencyZero)
  = (window {| counters_ := [1] |} (Some 4002) (to_double 1)
       (FrequencyHz (6004799503160661 # 18014398509481984)),
     Some (6004799503160661 # 18014398509481984)%Q) /\
  (rate 0 1000 1 4000 == 1 # 3)%Q /\
  ~ (6004799503160661 # 18014398509481984 == rate 0 1000 1 4000)%Q.
Proof.
  split; [vm_compute; reflexivity |].
  split; [reflexivity |].
  intros H. vm_compute in H. discriminate.
Qed.

(** C4: a tick on a timer that was never started records the sampled sum
    and the time and writes no rate.  A tick whose [elapsed] reads the
    clock at [t1] on the recorded sample [(S0, t0)], [t0 < t1], with
    current sum [S1], writes the rate as binary64 computes it,
    [(S1 - S0) / ((t1 - t0) / 1000.0)], and records the sum [S1] with the
    time [later] that [restart] reads.  For a recorded [int] sum and an
    elapsed time that a [qint64] holds, the rate written is within the
    relative error [2^-51] of [(S1 - S0) / (t1 - t0)] per second; it is
    written as it is, negative when [S1 < S0]. *)
Theorem updateFrequency_rate
  (cm : CounterManager) (label : LabelText) (S0 t0 t1 later : Z) :
  updateFrequency t0 later (window cm None 0%Q label)
  = (window cm (Some t0) (to_double (accumulate (getCounters cm))) label, None) /\
  (t0 < t1 ->
   updateFrequency t1 later (window cm (Some t0) (to_double S0) label)
   = (window cm (Some later) (to_double (accumulate (getCounters cm)))
        (FrequencyHz (computed_rate S0 (accumulate (getCounters cm)) (t1 - t0))),
      Some (computed_rate S0 (accumulate (getCounters cm)) (t1 - t0)))
   /\ (rate S0 t0 (accumulate (getCounters cm)) t1
       == ((accumulate (getCounters cm) - S0) * 1000) # Z.to_pos (t1 - t0))%Q
   /\ (Int.in_range S0 -> t1 - t0 < 2 ^ 63 ->
       (Qabs (computed_rate S0 (accumulate (getCounters cm)) (t1 - t0)
              - rate S0 t0 (accumulate (getCounters cm)) t1)
        <= tolerance * Qabs (rate S0 t0 (accumulate (getCounters cm)) t1))%Q
       /\ (accumulate (getCounters cm) < S0 ->
           (computed_rate S0 (accumulate (getCounters cm)) (t1 - t0) < 0)%Q))).
Proof.
  split.
  - now rewrite updateFrequency_unarmed.
  - intros Hlt. split; [| split].
    + now rewrite (updateFrequency_armed t1 later _ t0).
    + apply rate_value. lia.
    + intros H0 Hmax.
      apply computed_rate_near_rate; trivial. apply accumulate_in_range.
Qed.

Lemma updateFrequency_rate_witness :
  updateFrequency 3000 3002
    (window {| counters_ := [40; 2] |} (Some 1000) (to_double 50) FrequencyZero)
  = (window {| counters_ := [40; 2] |} (Some 3002) (to_double 42)
       (FrequencyHz (computed_rate 50 42 2000)), Some (computed_rate 50 42 2000))
  /\ computed_rate 50 42 2000 = (-4 # 1)%Q
  /\ (Qabs (computed_rate 50 42 2000 - rate 50 1000 42 3000)
      <= tolerance * Qabs (rate 50 1000 42 3000))%Q
  /\ (computed_rate 50 42 2000 < 0)%Q.
Proof.
  assert (H : 1000 < 3000) by lia.
  assert (H0 : Int.in_range 50) by (unfold Int.in_range, Int.min_int, Int.max_int; lia).
  assert (Hmax : 3000 - 1000 < 2 ^ 63) by reflexivity.
  assert (Hneg : 42 < 50) by lia.
  destruct (updateFrequency_rate {| counters_ := [40; 2] |} FrequencyZero 50 1000 3000 3002)
    as [_ Harmed].
  destruct (Harmed H) as (Htick & _ & Hnear).
  destruct (Hnear H0 Hmax) as (Htol & Hsign).
  split; [exact Htick |].
  split; [vm_compute; reflexivity |].
  split; [exact Htol | exact (Hsign Hneg)].
Defined.

(** C8: an armed tick that observes a non-positive elapsed time writes no
    rate and leaves the whole state, the recorded sum and time included,
    as it was. *)
Theorem updateFrequency_skips_nonpositive (mw : MainWindow) (t0 now later : Z) :
  t_start (elapsedTimer mw) = Some t0 ->
  now - t0 <= 0 ->
  updateFrequency now later mw = (mw, None).
Proof.
  intros Ht Hle. unfold updateFrequency, isValid, elapsed.
  rewrite Ht. cbn [negb]. rewrite timeDiff_guard.
  apply Z.leb_le in Hle. now rewrite Hle.
Qed.

Lemma updateFrequency_skips_nonpositive_witness :
  updateFrequency 1000 1001
    (window {| counters_ := [40; 2] |} (Some 1000) (to_double 50) FrequencyZero)
  = (window {| counters_ := [40; 2] |} (Some 1000) (to_double 50) FrequencyZero, None).
Proof.
  apply (updateFrequency_skips_nonpositive _ 1000); [reflexivity | lia].
Defined.

(** ** Saving and loading *)

Lemma all_true_skipn n l : all_true l = true -> all_true (skipn n l) = true.
Proof.
  revert l. induction n as [|n IH]; intros [|b l]; cbn; trivial.
  intros H. apply andb_prop in H as [_ H]. now apply IH.
Qed.

(** Runs the next [exec_] of a sequence on a world whose verdicts are all
    favourable. *)
Ltac exec_step lemma :=
  unfold bind at 1; unfold exec_ at 1; unfold bind at 1;
  (erewrite lemma; [| first [eassumption | now repeat apply all_true_skipn]
                    | reflexivity]);
  cbn [ret].

Lemma exec_ready q tbl txn av reg outs rbs msgs s rows :
  all_true outs = true ->
  sql q {| table := tbl; transaction := txn |} = Some (s, rows) ->
  exec q {| sqlite := {| table := tbl; transaction := txn |}; available := av;
            registered := reg; opened := true; outcomes := outs;
            rollbacks := rbs; messages := msgs |}
  = ((true, rows),
     {| sqlite := s; available := av; registered := reg; opened := true;
        outcomes := skipn 1 outs; rollbacks := skipn 1 rbs; messages := msgs |}).
Proof.
  intros Houts Hsql. unfold exec. cbn [opened outcomes rollbacks sqlite andb].
  assert (Hv : match outs with [] => true | b :: _ => b end = true).
  { destruct outs as [|b outs]; trivial. cbn in Houts. now apply andb_prop in Houts. }
  rewrite Hv, Hsql. unfold set_sqlite. cbn. now destruct outs.
Qed.

Lemma insert_loop counters : forall tbl rows av reg outs rbs msgs,
  all_true outs = true ->
  for_each counters (fun value => exec_ (InsertValue value))
    {| sqlite := {| table := tbl; transaction := Some (Some rows) |};
       available := av; registered := reg; opened := true;
       outcomes := outs; rollbacks := rbs; messages := msgs |}
  = (tt, {| sqlite := {| table := tbl; transaction := Some (Some (rows ++ counters)) |};
            available := av; registered := reg; opened := true;
            outcomes := skipn (length counters) outs;
            rollbacks := skipn (length counters) rbs; messages := msgs |}).
Proof.
  induction counters as [|value counters IH]; intros tbl rows av reg outs rbs msgs Houts.
  - cbn. now rewrite app_nil_r.
  - cbn [for_each]. unfold bind at 1. unfold exec_ at 1. unfold bind at 1.
    erewrite exec_ready; [| eassumption | reflexivity].
    cbn [ret write transaction table].
    rewrite IH by now apply all_true_skipn.
    rewrite <- app_assoc, !skipn_skipn, Nat.add_1_r. reflexivity.
Qed.

Lemma load_loop (rows : list Z) (acc : vector) :
  fold_left (fun cs row => push_back (Int.toInt row) cs) rows acc
  = acc ++ map Int.toInt rows.
Proof.
  revert acc. induction rows as [|row rows IH]; intros acc; cbn.
  - now rewrite app_nil_r.
  - rewrite IH. unfold push_back. now rewrite <- app_assoc.
Qed.

Lemma map_toInt_in_range (X : vector) :
  Forall Int.in_range X -> map Int.toInt X = X.
Proof.
  induction 1 as [|x X Hx _ IH]; cbn; trivial.
  unfold Int.toInt at 1. rewrite wrap_id by assumption. now rewrite IH.
Qed.

Lemma database_ready s op outs rbs msgs :
  database {| sqlite := s; available := true; registered := true; opened := op;
              outcomes := outs; rollbacks := rbs; messages := msgs |}
  = (tt, {| sqlite := s; available := true; registered := true; opened := true;
            outcomes := outs; rollbacks := rbs; messages := msgs |}).
Proof. now destruct op. Qed.

Lemma onSaveClicked_ready mw old op outs rbs msgs :
  all_true outs = true ->
  onSaveClicked mw
    {| sqlite := {| table := Some old; transaction := None |}; available := true;
       registered := true; opened := op; outcomes := outs;
       rollbacks := rbs; messages := msgs |}
  = (tt, {| sqlite := {| table := Some (getCounters (counterManager mw));
                         transaction := None |};
            available := true; registered := true; opened := true;
            outcomes := skipn (3 + length (getCounters (counterManager mw))) outs;
            rollbacks := skipn (3 + length (getCounters (counterManager mw))) rbs;
            messages := msgs |}).
Proof.
  intros Houts. unfold onSaveClicked.
  unfold bind at 1. rewrite database_ready.
  unfold bind at 1. unfold db_isOpen. cbn [registered opened andb negb].
  exec_step exec_ready. exec_step exec_ready.
  cbn [write transaction table].
  unfold bind at 1. rewrite insert_loop by (now do 2 apply all_true_skipn).
  unfold exec_, bind.
  erewrite exec_ready; [| now do 3 apply all_true_skipn | reflexivity].
  cbn [app]. rewrite !skipn_skipn. unfold ret.
  replace (1 + length (getCounters (counterManager mw)) + 1 + 1)%nat
    with (3 + length (getCounters (counterManager mw)))%nat by lia.
  reflexivity.
Qed.

Lemma loadCountersFromDatabase_ready mw rows op outs rbs msgs :
  all_true outs = true ->
  loadCountersFromDatabase mw
    {| sqlite := {| table := Some rows; transaction := None |}; available := true;
       registered := true; opened := op; outcomes := outs;
       rollbacks := rbs; messages := msgs |}
  = (set_counterManager {| counters_ := map Int.toInt rows |} mw,
     {| sqlite := {| table := Some rows; transaction := None |}; available := true;
        registered := true; opened := false; outcomes := skipn 2 outs;
        rollbacks := skipn 2 rbs;
        messages := msgs |}).
Proof.
  intros Houts. unfold loadCountersFromDatabase.
  unfold bind at 1. rewrite database_ready.
  unfold bind at 1. unfold db_isValid. cbn [registered negb].
  unfold bind at 1. unfold ret at 1.
  unfold bind at 1. unfold open, set_opened, set_sqlite, rollback.
  cbn [opened available sqlite table transaction registered outcomes rollbacks messages negb].
  exec_step exec_ready.
  unfold bind at 1.
  erewrite exec_ready; [| now apply all_true_skipn | reflexivity].
  cbn [snd]. rewrite load_loop. cbn [app].
  unfold bind, close, ret, set_opened, set_sqlite, rollback, setCounters.
  cbn [opened available sqlite table transaction registered outcomes rollbacks messages].
  now rewrite !skipn_skipn.
Qed.

(** C6: on a storage that is ready, saving the counters [X] and then
    loading leaves exactly [X], the empty sequence included, in the table
    and in the counter store. *)
Theorem save_then_load (X : vector) (mw mw' : MainWindow) (w : World) :
  Forall Int.in_range X ->
  storage_ready w ->
  getCounters (counterManager mw) = X ->
  table (sqlite (snd (onSaveClicked mw w))) = Some X /\
  getCounters (counterManager
    (fst (loadCountersFromDatabase mw' (snd (onSaveClicked mw w))))) = X.
Proof.
  intros HX (Hreg & Hav & Htxn & Htbl & Houts) Hmw.
  destruct w as [[tbl txn] av reg op outs rbs msgs]. cbn in Hreg, Hav, Htxn, Htbl, Houts.
  subst av reg txn. destruct tbl as [old|]; [| congruence].
  rewrite onSaveClicked_ready by assumption. cbn [snd].
  rewrite loadCountersFromDatabase_ready by now apply all_true_skipn.
  cbn. rewrite Hmw. split; trivial. now apply map_toInt_in_range.
Qed.

Lemma save_then_load_witness :
  getCounters (counterManager
    (fst (loadCountersFromDatabase (new_MainWindow [9])
            (snd (onSaveClicked (new_MainWindow [3; 1; 2]) (world_with [7; 8] []))))))
  = [3; 1; 2]
  /\ getCounters (counterManager
    (fst (loadCountersFromDatabase (new_MainWindow [9])
            (snd (onSaveClicked (new_MainWindow []) (world_with [7; 8] []))))))
  = [].
Proof.
  assert (Hw : storage_ready (world_with [7; 8] [])).
  { unfold storage_ready. cbn. repeat split. discriminate. }
  split.
  - apply (save_then_load [3; 1; 2] (new_MainWindow [3; 1; 2]) (new_MainWindow [9])
             (world_with [7; 8] []));
      [| exact Hw | reflexivity].
    repeat constructor; unfold Int.min_int, Int.max_int; lia.
  - apply (save_then_load [] (new_MainWindow []) (new_MainWindow [9])
             (world_with [7; 8] []));
      [constructor | exact Hw | reflexivity].
Defined.

(** C5 fails on the code: when the engine cannot carry out the second of
    three [INSERT]s, [onSaveClicked] goes on and commits; the table that
    held [7; 8] ends as [1; 3], neither the old rows nor the counters
    [1; 2; 3], and no message is shown. *)
Theorem onSaveClicked_commits_partial_write :
  sqlite (snd (onSaveClicked (new_MainWindow [1; 2; 3])
                 (world_with [7; 8] [true; true; true; false])))
  = {| table := Some [1; 3]; transaction := None |} /\
  messages (snd (onSaveClicked (new_MainWindow [1; 2; 3])
                   (world_with [7; 8] [true; true; true; false]))) = [].
Proof. vm_compute. split; reflexivity. Qed.

(** *** An interrupted save

    Between a [BEGIN] that succeeded and the [COMMIT], the statements of
    [onSaveClicked] work on the transaction's copy as long as no failure
    rolls the transaction back: a process that stops there (the connection
    is closed, the transaction rolled back) leaves the table as it was. *)

Lemma for_each_map {A B} (f : A -> B) (body : B -> Qt unit) (l : list A) (w : World) :
  for_each (map f l) body w = for_each l (fun x => body (f x)) w.
Proof.
  revert w. induction l as [|x l IH]; intros w; cbn; trivial.
  unfold bind. destruct (body (f x) w) as [u w']. apply IH.
Qed.

Lemma onSaveClicked_statements mw w :
  registered w = true -> opened w = true ->
  onSaveClicked mw w
  = (exec_ BeginTransaction ;;;
     for_each (save_writes (getCounters (counterManager mw))) exec_ ;;;
     exec_ Commit) w.
Proof.
  intros Hreg Hop. unfold onSaveClicked, save_writes.
  unfold bind at 1. unfold database. rewrite Hreg, Hop. cbn [andb negb].
  unfold bind at 1. unfold db_isOpen. rewrite Hreg, Hop. cbn [andb negb].
  unfold bind. destruct (exec_ BeginTransaction w) as [u1 w1].
  cbn [for_each]. unfold bind. destruct (exec_ DeleteFrom w1) as [u2 w2].
  now rewrite for_each_map.
Qed.

Lemma keeps_transactions_hd flags :
  keeps_transactions flags -> match flags with [] => false | b :: _ => b end = false.
Proof. now destruct 1. Qed.

Lemma keeps_transactions_tl flags :
  keeps_transactions flags -> keeps_transactions (tl flags).
Proof. destruct 1; [constructor | assumption]. Qed.

Lemma keeps_transactions_skipn n flags :
  keeps_transactions flags -> keeps_transactions (skipn n flags).
Proof.
  revert flags. induction n as [|n IH]; intros flags H; [exact H |].
  destruct H; [constructor | now apply IH].
Qed.

Lemma exec_write_keeps_table q w copy :
  is_write q -> transaction (sqlite w) = Some copy ->
  keeps_transactions (rollbacks w) ->
  table (sqlite (snd (exec_ q w))) = table (sqlite w) /\
  (exists copy', transaction (sqlite (snd (exec_ q w))) = Some copy') /\
  keeps_transactions (rollbacks (snd (exec_ q w))).
Proof.
  intros Hq Htxn Hkeep. destruct w as [[tbl txn] av reg op outs rbs msgs].
  cbn in Htxn, Hkeep. subst txn.
  pose proof (keeps_transactions_tl _ Hkeep) as Htl.
  unfold exec_, bind, exec, ret.
  cbn [opened outcomes rollbacks sqlite].
  rewrite (keeps_transactions_hd _ Hkeep), andb_false_r.
  destruct (op && match outs with [] => true | b :: _ => b end);
    [| cbn; eauto].
  destruct q; try contradiction; cbn [sql current transaction];
    destruct copy as [rows|]; cbn; eauto.
Qed.

Lemma writes_keep_table qs : forall w copy,
  Forall is_write qs -> transaction (sqlite w) = Some copy ->
  keeps_transactions (rollbacks w) ->
  table (sqlite (snd (for_each qs exec_ w))) = table (sqlite w) /\
  exists copy', transaction (sqlite (snd (for_each qs exec_ w))) = Some copy'.
Proof.
  induction qs as [|q qs IH]; intros w copy Hqs Htxn Hkeep.
  - cbn. eauto.
  - inversion Hqs as [|? ? Hq Hqs']; subst.
    destruct (exec_write_keeps_table q w copy Hq Htxn Hkeep)
      as (Htbl & (copy1 & Hcopy1) & Hkeep1).
    cbn [for_each]. unfold bind.
    destruct (exec_ q w) as [u w1]. cbn [snd] in Htbl, Hcopy1, Hkeep1.
    destruct (IH w1 copy1 Hqs' Hcopy1 Hkeep1) as (Htbl' & copy2 & Hcopy2).
    rewrite Htbl', Htbl. eauto.
Qed.

Lemma save_writes_are_writes counters k :
  Forall is_write (firstn k (save_writes counters)).
Proof.
  assert (H : Forall is_write (save_writes counters)).
  { apply Forall_forall. intros q [<- | Hq]; [exact I |].
    apply in_map_iff in Hq as (value & <- & _). exact I. }
  rewrite <- (firstn_skipn k) in H. now apply Forall_app in H.
Qed.

Lemma interrupted_save_keeps_table (counters : vector) (k : nat) (old : list Z)
  (verdicts flags : list bool) :
  keeps_transactions flags ->
  table (sqlite (snd
    ((exec_ BeginTransaction ;;;
      for_each (firstn k (save_writes counters)) exec_ ;;;
      close) (world_with_rollbacks old (true :: verdicts) flags))))
  = Some old.
Proof.
  intros Hkeep. pose proof (keeps_transactions_tl _ Hkeep) as Htl.
  unfold bind at 1. unfold exec_ at 1, bind at 1, exec at 1, world_with_rollbacks, ret.
  cbn [opened outcomes rollbacks sqlite andb sql transaction table tl set_sqlite
       available registered messages].
  unfold bind.
  match goal with
  | |- context [for_each ?qs exec_ ?w] =>
      destruct (writes_keep_table qs w (Some old)
                  (save_writes_are_writes counters k) eq_refl Htl) as (Htbl & _);
      destruct (for_each qs exec_ w) as [u w']
  end.
  cbn [snd] in Htbl. cbn. exact Htbl.
Qed.

(** ** The scenario of the specification: three counters added to an
    empty store, five ticks of the worker, the middle counter removed. *)
Example three_counters_five_ticks :
  getCounters (addCounter 0 (addCounter 0 (addCounter 0 {| counters_ := [] |})))
  = [0; 0; 0] /\
  getCounters (workerThread 5 {| counters_ := [0; 0; 0] |}) = [5; 5; 5] /\
  getCounters (deleteCounter 1 {| counters_ := [5; 5; 5] |}) = [5; 5].
Proof. repeat split. Qed.

(** * Further properties of the code *)

(** ** The counter store: how the operations compose *)

Lemma erase_last (l : vector) (v : Z) : erase (length l) (l ++ [v]) = l.
Proof.
  unfold erase. rewrite firstn_app, firstn_all, Nat.sub_diag. cbn [firstn].
  rewrite skipn_all2 by (rewrite length_app; cbn; lia). now rewrite !app_nil_r.
Qed.

(** A counter that was just added is the last one: removing the index that
    was the length before the addition restores the store, as long as the
    store stays within [INT_MAX] counters. *)
Theorem addCounter_deleteCounter_last (value : Z) (l : vector) :
  Z.of_nat (length l) < Int.max_int ->
  deleteCounter (Z.of_nat (length l)) (addCounter value {| counters_ := l |})
  = {| counters_ := l |}.
Proof.
  intros Hlen. unfold addCounter, push_back. cbn [counters_].
  rewrite deleteCounter_in_range.
  - now rewrite Nat2Z.id, erase_last.
  - rewrite static_cast_int_small; rewrite length_app; cbn [length]; lia.
Qed.

Lemma addCounter_deleteCounter_last_witness :
  deleteCounter 2 (addCounter 9 {| counters_ := [4; 5] |}) = {| counters_ := [4; 5] |}.
Proof.
  apply (addCounter_deleteCounter_last 9 [4; 5]). cbn. unfold Int.max_int. lia.
Defined.

Lemma erase_map (f : Z -> Z) (pos : nat) (l : vector) :
  erase pos (map f l) = map f (erase pos l).
Proof. unfold erase. now rewrite map_app, firstn_map, skipn_map. Qed.

(** A tick of the worker and a removal give the same store in either
    order; a tick after an addition is an addition of the incremented value
    after the tick. *)
Theorem incrementAll_commutes (index value : Z) (m : CounterManager) :
  deleteCounter index (incrementAll m) = incrementAll (deleteCounter index m) /\
  incrementAll (addCounter value m)
  = addCounter (Int.preincrement value) (incrementAll m).
Proof.
  destruct m as [l]. split.
  - unfold incrementAll at 1. cbn [counters_]. unfold deleteCounter. cbn [counters_].
    rewrite length_map.
    destruct ((0 <=? index) && (index <? Int.static_cast_int (length l))).
    + unfold incrementAll. cbn [counters_]. now rewrite erase_map.
    + reflexivity.
  - unfold incrementAll, addCounter, push_back. cbn [counters_].
    now rewrite map_app.
Qed.

Lemma wrap_add_r a b : Int.wrap (a + Int.wrap b) = Int.wrap (a + b).
Proof. rewrite Z.add_comm, wrap_add_l. f_equal. lia. Qed.

Lemma exact_sum_shifted (N : Z) (l : vector) :
  Int.wrap (exact_sum (map (fun v => Int.wrap (v + N)) l))
  = Int.wrap (exact_sum l + N * Z.of_nat (length l)).
Proof.
  unfold exact_sum. induction l as [|x l IH]; cbn [map fold_right length].
  - f_equal. lia.
  - rewrite wrap_add_l, <- wrap_add_r, IH, wrap_add_r. f_equal. lia.
Qed.

Lemma accumulate_workerThread (N : nat) (l : vector) :
  Forall Int.in_range l ->
  accumulate (getCounters (workerThread N {| counters_ := l |}))
  = Int.wrap (exact_sum l + Z.of_nat N * Z.of_nat (length l)).
Proof.
  intros Hl. unfold getCounters, workerThread.
  rewrite iter_incrementAll, accumulate_wrap, <- exact_sum_shifted.
  do 2 f_equal. apply map_ext_in. intros v Hv. apply iter_preincrement.
  rewrite Forall_forall in Hl. now apply Hl.
Qed.

(** After [N] ticks of the worker on [L] counters, the sum the rate
    estimator accumulates is the previous exact sum plus [N * L], reduced to
    the range of [int]. *)
Theorem accumulate_after_ticks (N : nat) (l : vector) :
  Forall Int.in_range l ->
  accumulate (getCounters (workerThread N {| counters_ := l |}))
  = Int.wrap (exact_sum l + Z.of_nat N * Z.of_nat (length l)) /\
  (Int.in_range (exact_sum l + Z.of_nat N * Z.of_nat (length l)) ->
   accumulate (getCounters (workerThread N {| counters_ := l |}))
   = exact_sum l + Z.of_nat N * Z.of_nat (length l)).
Proof.
  intros Hl. split.
  - now apply accumulate_workerThread.
  - intros Hr. rewrite accumulate_workerThread by assumption. now apply wrap_id.
Qed.

Lemma accumulate_after_ticks_witness :
  accumulate (getCounters (workerThread 5 {| counters_ := [1; 2; 3] |})) = 21.
Proof.
  assert (H : Forall Int.in_range [1; 2; 3])
    by (repeat constructor; unfold Int.min_int, Int.max_int; lia).
  apply (proj2 (accumulate_after_ticks 5 [1; 2; 3] H)).
  cbn. unfold Int.in_range, Int.min_int, Int.max_int. lia.
Defined.

(** ** The rate estimator over several ticks *)

(** From the first sample to the next: when the first tick comes at [t0],
    the worker then runs [N] ticks on the [L] counters, none of them
    overflowing the sum, and the next tick reads the clock at [t1 > t0],
    that tick writes a rate that is not negative and within the relative
    error [2^-51] of [N * L] counts per elapsed second. *)
Theorem rate_after_ticks (l : vector) (label : LabelText) (N : nat)
  (t0 later0 t1 later1 : Z) :
  Forall Int.in_range l ->
  Int.in_range (exact_sum l) ->
  Int.in_range (exact_sum l + Z.of_nat N * Z.of_nat (length l)) ->
  t0 < t1 ->
  t1 - t0 < 2 ^ 63 ->
  exists frequency,
    snd (updateFrequency t1 later1
           (set_counterManager
              (workerThread N {| counters_ := l |})
              (fst (updateFrequency t0 later0
                      (window {| counters_ := l |} None 0%Q label)))))
    = Some frequency /\
    (0 <= frequency)%Q /\
    (Qabs (frequency - ((Z.of_nat N * Z.of_nat (length l) * 1000) # Z.to_pos (t1 - t0)))
     <= tolerance * ((Z.of_nat N * Z.of_nat (length l) * 1000) # Z.to_pos (t1 - t0)))%Q.
Proof.
  intros Hl Hsum Hsum' Hlt Hmax.
  rewrite (updateFrequency_unarmed t0 later0) by reflexivity. cbn [fst].
  rewrite (updateFrequency_armed t1 later1 _ t0) by (trivial; reflexivity).
  cbn [snd]. eexists. split; [reflexivity |].
  unfold currentSum, set_counterManager, window.
  cbn [counterManager previousSum getCounters counters_].
  change (counters_ (workerThread N {| counters_ := l |}))
    with (getCounters (workerThread N {| counters_ := l |})).
  rewrite accumulate_workerThread, accumulate_wrap by assumption.
  rewrite !wrap_id by assumption.
  set (S1 := exact_sum l + Z.of_nat N * Z.of_nat (length l)) in *.
  set (S0 := exact_sum l) in *.
  change (fdiv _ _) with (computed_rate S0 S1 (t1 - t0)).
  assert (He : 0 < t1 - t0 < 2 ^ 63) by lia.
  destruct (computed_rate_accurate S0 S1 (t1 - t0) Hsum Hsum' He) as (_ & _ & Hpos & Hzero).
  destruct (computed_rate_near_rate S0 t0 S1 t1 Hsum Hsum' Hlt Hmax) as (Hnear & _).
  assert (Hrate : (rate S0 t0 S1 t1
                   == (Z.of_nat N * Z.of_nat (length l) * 1000) # Z.to_pos (t1 - t0))%Q).
  { unfold rate. rewrite rate_value by lia.
    unfold Qeq. cbn [Qnum Qden]. f_equal. unfold S1, S0. lia. }
  assert (Hnonneg : (0 <= (Z.of_nat N * Z.of_nat (length l) * 1000) # Z.to_pos (t1 - t0))%Q).
  { unfold Qle. cbn [Qnum Qden]. lia. }
  split.
  - assert (Hcase : S0 < S1 \/ S1 = S0) by (unfold S1, S0; lia).
    destruct Hcase as [Hup | Heq].
    + apply Qlt_le_weak. now apply Hpos.
    + rewrite (Hzero Heq). apply Qle_refl.
  - rewrite Hrate in Hnear. now rewrite (Qabs_pos _ Hnonneg) in Hnear.
Qed.

Lemma rate_after_ticks_witness :
  exists frequency,
    snd (updateFrequency 3000 3002
           (set_counterManager
              (workerThread 4 {| counters_ := [10; 20; 30] |})
              (fst (updateFrequency 1000 1000
                      (window {| counters_ := [10; 20; 30] |} None 0%Q FrequencyZero)))))
    = Some frequency /\
    (0 <= frequency)%Q /\
    (Qabs (frequency - (6 # 1)) <= tolerance * (6 # 1))%Q.
Proof.
  assert (Hl : Forall Int.in_range [10; 20; 30])
    by (repeat constructor; unfold Int.min_int, Int.max_int; lia).
  assert (H1 : Int.in_range (exact_sum [10; 20; 30]))
    by (cbn; unfold Int.in_range, Int.min_int, Int.max_int; lia).
  assert (H2 : Int.in_range
                 (exact_sum [10; 20; 30] + Z.of_nat 4 * Z.of_nat (length [10; 20; 30])))
    by (cbn; unfold Int.in_range, Int.min_int, Int.max_int; lia).
  assert (H3 : 1000 < 3000) by lia.
  assert (H4 : 3000 - 1000 < 2 ^ 63) by reflexivity.
  destruct (rate_after_ticks [10; 20; 30] FrequencyZero 4 1000 1000 3000 3002
              Hl H1 H2 H3 H4) as (frequency & Hemit & Hpos & Hrate).
  exists frequency. split; [exact Hemit |]. split; [exact Hpos |].
  assert (Hq : ((Z.of_nat 4 * Z.of_nat (length [10; 20; 30]) * 1000)
                # Z.to_pos (3000 - 1000) == 6 # 1)%Q) by reflexivity.
  now rewrite Hq in Hrate.
Defined.

(** ** Loading and saving: errors and edges *)

(** When the file cannot be opened, [loadCountersFromDatabase] shows one
    message and stops: the window and its counters are as before, no
    statement is run, the connection is registered and closed, and the
    table in the file is as it was. *)
Theorem loadCountersFromDatabase_unavailable (mw : MainWindow) (w : World) :
  available w = false ->
  fst (loadCountersFromDatabase mw w) = mw /\
  messages (snd (loadCountersFromDatabase mw w))
  = messages w ++ ["Failed to open database"%string] /\
  table (sqlite (snd (loadCountersFromDatabase mw w))) = table (sqlite w) /\
  outcomes (snd (loadCountersFromDatabase mw w)) = outcomes w /\
  registered (snd (loadCountersFromDatabase mw w)) = true /\
  opened (snd (loadCountersFromDatabase mw w)) = false.
Proof.
  intros Hav. destruct w as [[tbl txn] av reg op outs rbs msgs]. cbn in Hav. subst av.
  destruct reg, op; cbn; auto 10.
Qed.

Lemma loadCountersFromDatabase_unavailable_witness :
  fst (loadCountersFromDatabase (new_MainWindow [1; 2])
         {| sqlite := {| table := Some [7]; transaction := None |};
            available := false; registered := false; opened := false;
            outcomes := []; rollbacks := []; messages := [] |})
  = new_MainWindow [1; 2].
Proof.
  apply (loadCountersFromDatabase_unavailable (new_MainWindow [1; 2])
           {| sqlite := {| table := Some [7]; transaction := None |};
              available := false; registered := false; opened := false;
              outcomes := []; rollbacks := []; messages := [] |}).
  reflexivity.
Defined.

Lemma loadCountersFromDatabase_available mw tbl reg op outs rbs msgs :
  all_true outs = true ->
  loadCountersFromDatabase mw
    {| sqlite := {| table := tbl; transaction := None |}; available := true;
       registered := reg; opened := op; outcomes := outs;
       rollbacks := rbs; messages := msgs |}
  = (set_counterManager
       {| counters_ := map Int.toInt (match tbl with Some rows => rows | None => [] end) |}
       mw,
     {| sqlite := {| table := Some (match tbl with Some rows => rows | None => [] end);
                     transaction := None |};
        available := true; registered := true; opened := false;
        outcomes := skipn 2 outs; rollbacks := skipn 2 rbs; messages := msgs |}).
Proof.
  intros Houts. unfold loadCountersFromDatabase.
  unfold bind at 1. unfold database at 1.
  unfold bind at 1. unfold db_isValid at 1.
  destruct tbl as [rows|]; destruct reg, op;
    cbn [registered opened available andb negb set_opened sqlite outcomes rollbacks messages];
    unfold bind at 1; unfold addDatabase, ret at 1;
    cbn [registered opened available andb negb sqlite outcomes rollbacks messages];
    unfold bind at 1; unfold open, set_opened, set_sqlite, rollback;
    cbn [opened available sqlite table transaction registered outcomes rollbacks messages negb];
    exec_step exec_ready; cbn [write transaction table];
    unfold bind at 1;
    (erewrite exec_ready; [| now apply all_true_skipn | reflexivity]);
    cbn [snd]; rewrite load_loop; cbn [app];
    unfold bind, close, ret, set_opened, set_sqlite, rollback, setCounters;
    cbn [opened available sqlite table transaction registered outcomes rollbacks messages];
    now rewrite !skipn_skipn.
Qed.

(** When the file can be opened and the engine carries out the statements,
    [loadCountersFromDatabase] replaces the counters of the store, whatever
    they were, by the rows of the table, each converted by [toInt]; a file
    without the table gets an empty one and gives no counters.  No message
    is shown and the connection is left registered and closed. *)
Theorem loadCountersFromDatabase_replaces (mw : MainWindow) (w : World) :
  available w = true ->
  transaction (sqlite w) = None ->
  all_true (outcomes w) = true ->
  getCounters (counterManager (fst (loadCountersFromDatabase mw w)))
  = map Int.toInt (rows_of (sqlite w)) /\
  table (sqlite (snd (loadCountersFromDatabase mw w))) = Some (rows_of (sqlite w)) /\
  messages (snd (loadCountersFromDatabase mw w)) = messages w /\
  registered (snd (loadCountersFromDatabase mw w)) = true /\
  opened (snd (loadCountersFromDatabase mw w)) = false.
Proof.
  intros Hav Htxn Houts. destruct w as [[tbl txn] av reg op outs rbs msgs].
  cbn in Hav, Htxn, Houts. subst av txn.
  rewrite loadCountersFromDatabase_available by assumption.
  cbn. auto.
Qed.

Lemma loadCountersFromDatabase_replaces_witness :
  getCounters (counterManager
    (fst (loadCountersFromDatabase (new_MainWindow [1; 2])
            {| sqlite := {| table := None; transaction := None |};
               available := true; registered := false; opened := false;
               outcomes := []; rollbacks := []; messages := [] |}))) = []
  /\ getCounters (counterManager
    (fst (loadCountersFromDatabase (new_MainWindow [1; 2])
            (world_with [5; 4294967303] [])))) = [5; 7].
Proof.
  split.
  - apply (loadCountersFromDatabase_replaces (new_MainWindow [1; 2])
             {| sqlite := {| table := None; transaction := None |};
                available := true; registered := false; opened := false;
                outcomes := []; rollbacks := []; messages := [] |}); reflexivity.
  - apply (loadCountersFromDatabase_replaces (new_MainWindow [1; 2])
             (world_with [5; 4294967303] [])); reflexivity.
Defined.



(** Without an open connection (none was registered, or the file cannot be
    opened) [onSaveClicked] shows one message and runs no statement: the
    file is as it was. *)
Theorem onSaveClicked_not_open (mw : MainWindow) (w : World) :
  registered w = false \/ (opened w = false /\ available w = false) ->
  sqlite (snd (onSaveClicked mw w)) = sqlite w /\
  outcomes (snd (onSaveClicked mw w)) = outcomes w /\
  messages (snd (onSaveClicked mw w))
  = messages w ++ ["Database connection is not open"%string].
Proof.
  destruct w as [s av reg op outs rbs msgs]. cbn [registered opened available].
  intros [-> | [-> ->]].
  - cbn. auto.
  - destruct reg; cbn; auto.
Qed.

Lemma onSaveClicked_not_open_witness :
  messages (snd (onSaveClicked (new_MainWindow [1])
    {| sqlite := {| table := Some [7]; transaction := None |};
       available := false; registered := true; opened := false;
       outcomes := []; rollbacks := []; messages := [] |}))
  = ["Database connection is not open"%string].
Proof.
  apply (onSaveClicked_not_open (new_MainWindow [1])
    {| sqlite := {| table := Some [7]; transaction := None |};
       available := false; registered := true; opened := false;
       outcomes := []; rollbacks := []; messages := [] |}).
  right. split; reflexivity.
Defined.

Lemma inserted_nil (counters : vector) : inserted counters [] = counters.
Proof. now destruct counters. Qed.

Lemma write_current (s : Sqlite) (rows : list Z) :
  current s = Some rows -> write rows s = s.
Proof.
  destruct s as [tbl [txn|]]; unfold current, write; cbn; intros ->; reflexivity.
Qed.

Lemma write_write (s : Sqlite) (rows rows' : list Z) :
  write rows' (write rows s) = write rows' s /\
  current (write rows s) = Some rows.
Proof. destruct s as [tbl [txn|]]; unfold current, write; cbn; auto. Qed.

Lemma write_transaction (s : Sqlite) (rows : list Z) :
  transaction s = None -> transaction (write rows s) = None.
Proof. destruct s as [tbl [txn|]]; cbn; congruence. Qed.

Lemma rollback_none (s : Sqlite) : transaction s = None -> rollback s = s.
Proof. destruct s as [tbl txn]; cbn; intros ->; reflexivity. Qed.

Lemma keeps_transactions_firstn n flags :
  keeps_transactions flags -> keeps_transactions (firstn n flags).
Proof.
  revert flags. induction n as [|n IH]; intros flags H; [constructor |].
  destruct H as [|flag flags Hflag H]; cbn [firstn]; constructor;
    [exact Hflag | exact (IH flags H)].
Qed.

Lemma keeps_firstn_hd n flags :
  keeps_transactions (firstn (S n) flags) ->
  match flags with [] => false | b :: _ => b end = false.
Proof. destruct flags as [|b flags]; trivial. now inversion 1. Qed.

Lemma keeps_firstn_tl n flags :
  keeps_transactions (firstn (S n) flags) -> keeps_transactions (firstn n (tl flags)).
Proof.
  destruct flags as [|b flags]; cbn [firstn tl].
  - intros _. rewrite firstn_nil. constructor.
  - now inversion 1.
Qed.

Lemma nth_skipn_hd (n : nat) (verdicts : list bool) :
  match skipn n verdicts with [] => true | b :: _ => b end = nth n verdicts true.
Proof.
  revert verdicts. induction n as [|n IH]; intros [|b verdicts]; cbn; auto.
Qed.

Lemma tl_skipn {A} (n : nat) (l : list A) : tl (skipn n l) = skipn (S n) l.
Proof.
  revert l. induction n as [|n IH]; intros [|x l]; cbn [skipn tl]; trivial.
Qed.

Lemma skipn_tl {A} (n : nat) (l : list A) : skipn n (tl l) = skipn (S n) l.
Proof. destruct l; cbn [skipn tl]; [now rewrite skipn_nil | reflexivity]. Qed.

(** One [exec] on an open connection when the failure, if there is one,
    cannot end a transaction: none is open, or the failure is of the kind
    that leaves it open. *)
Lemma exec_keeps q s av reg verdicts flags msgs :
  transaction s = None \/ match flags with [] => false | b :: _ => b end = false ->
  exec q {| sqlite := s; available := av; registered := reg; opened := true;
            outcomes := verdicts; rollbacks := flags; messages := msgs |}
  = match (if match verdicts with [] => true | b :: _ => b end
           then sql q s else None) with
    | Some (s', rows) =>
        ((true, rows),
         {| sqlite := s'; available := av; registered := reg; opened := true;
            outcomes := tl verdicts; rollbacks := tl flags; messages := msgs |})
    | None =>
        ((false, []),
         {| sqlite := s; available := av; registered := reg; opened := true;
            outcomes := tl verdicts; rollbacks := tl flags; messages := msgs |})
    end.
Proof.
  intros Hkeep. unfold exec, set_sqlite.
  cbn [opened outcomes rollbacks sqlite available registered messages andb].
  destruct (match verdicts with [] => true | b :: _ => b end).
  - now destruct (sql q s) as [[s' rows]|].
  - destruct Hkeep as [Hnone | Hkeep].
    + rewrite (rollback_none s Hnone).
      now destruct (match flags with [] => false | b :: _ => b end).
    + now rewrite Hkeep.
Qed.

(** The [INSERT]s of a save, as long as none of their failures ends a
    transaction. *)
Lemma insert_loop_verdicts counters : forall s rows av reg verdicts flags msgs,
  current s = Some rows ->
  transaction s = None \/ keeps_transactions (firstn (length counters) flags) ->
  for_each counters (fun value => exec_ (InsertValue value))
    {| sqlite := s; available := av; registered := reg; opened := true;
       outcomes := verdicts; rollbacks := flags; messages := msgs |}
  = (tt, {| sqlite := write (rows ++ inserted counters verdicts) s;
            available := av; registered := reg; opened := true;
            outcomes := skipn (length counters) verdicts;
            rollbacks := skipn (length counters) flags; messages := msgs |}).
Proof.
  induction counters as [|value counters IH];
    intros s rows av reg verdicts flags msgs Hs Hkeep.
  - cbn. rewrite app_nil_r, write_current by assumption. reflexivity.
  - assert (Hhd : transaction s = None
                  \/ match flags with [] => false | b :: _ => b end = false).
    { destruct Hkeep as [Hnone | Hkeep]; [now left |].
      right. now apply (keeps_firstn_hd (length counters)). }
    assert (Hkeep' : forall rows', transaction (write rows' s) = None
                       \/ keeps_transactions (firstn (length counters) (tl flags))).
    { intros rows'. destruct Hkeep as [Hnone | Hkeep].
      - left. now apply write_transaction.
      - right. now apply keeps_firstn_tl. }
    assert (Hkeep'' : transaction s = None
                      \/ keeps_transactions (firstn (length counters) (tl flags))).
    { destruct Hkeep as [Hnone | Hkeep]; [now left |].
      right. now apply keeps_firstn_tl. }
    cbn [length]. rewrite <- (skipn_tl (length counters) flags).
    cbn [for_each]. unfold bind at 1. unfold exec_ at 1, bind at 1.
    rewrite exec_keeps by assumption.
    destruct (write_write s (rows ++ [value])
                ((rows ++ [value]) ++ inserted counters (tl verdicts))) as [Hww Hcw].
    destruct verdicts as [|[|] verdicts]; cbn [sql tl]; rewrite ?Hs; cbn [ret];
      cbn [tl] in Hww.
    + rewrite (IH _ _ _ _ _ _ _ Hcw (Hkeep' _)), Hww. cbn [inserted skipn].
      rewrite inserted_nil, <- app_assoc. cbn [app]. now destruct counters.
    + rewrite (IH _ _ _ _ _ _ _ Hcw (Hkeep' _)), Hww. cbn [inserted skipn].
      now rewrite <- app_assoc.
    + rewrite (IH _ _ _ _ _ _ _ Hs Hkeep''). reflexivity.
Qed.

(** The statements of a save between [BEGIN] and [COMMIT]. *)
Lemma save_writes_verdicts counters s rows av reg delete_ok verdicts flags msgs :
  current s = Some rows ->
  transaction s = None \/ keeps_transactions (firstn (S (length counters)) flags) ->
  for_each (save_writes counters) exec_
    {| sqlite := s; available := av; registered := reg; opened := true;
       outcomes := delete_ok :: verdicts; rollbacks := flags; messages := msgs |}
  = (tt, {| sqlite := write ((if delete_ok then [] else rows)
                             ++ inserted counters verdicts) s;
            available := av; registered := reg; opened := true;
            outcomes := skipn (length counters) verdicts;
            rollbacks := skipn (S (length counters)) flags; messages := msgs |}).
Proof.
  intros Hs Hkeep.
  assert (Hhd : transaction s = None
                \/ match flags with [] => false | b :: _ => b end = false).
  { destruct Hkeep as [Hnone | Hkeep]; [now left |].
    right. now apply (keeps_firstn_hd (length counters)). }
  assert (Hkeep' : forall rows', transaction (write rows' s) = None
                     \/ keeps_transactions (firstn (length counters) (tl flags))).
  { intros rows'. destruct Hkeep as [Hnone | Hkeep].
    - left. now apply write_transaction.
    - right. now apply keeps_firstn_tl. }
  assert (Hkeep'' : transaction s = None
                    \/ keeps_transactions (firstn (length counters) (tl flags))).
  { destruct Hkeep as [Hnone | Hkeep]; [now left |].
    right. now apply keeps_firstn_tl. }
  rewrite <- (skipn_tl (length counters) flags).
  unfold save_writes. cbn [for_each]. unfold bind at 1. unfold exec_ at 1, bind at 1.
  rewrite exec_keeps by assumption.
  destruct (write_write s [] ([] ++ inserted counters verdicts)) as [Hww Hcw].
  destruct delete_ok; cbn [sql tl]; rewrite ?Hs; cbn [ret]; rewrite for_each_map.
  - rewrite (insert_loop_verdicts _ _ _ _ _ _ _ _ Hcw (Hkeep' _)), Hww. reflexivity.
  - rewrite (insert_loop_verdicts _ _ _ _ _ _ _ _ Hs Hkeep''). reflexivity.
Qed.

Lemma onSaveClicked_verdicts (mw : MainWindow) (old : list Z)
  (begin_ok delete_ok : bool) (verdicts flags : list bool) :
  keeps_transactions flags ->
  onSaveClicked mw (world_with_rollbacks old (begin_ok :: delete_ok :: verdicts) flags)
  = (tt,
     {| sqlite :=
          if begin_ok
          then
            if nth (length (getCounters (counterManager mw))) verdicts true
            then {| table := Some ((if delete_ok then [] else old)
                                   ++ inserted (getCounters (counterManager mw)) verdicts);
                    transaction := None |}
            else {| table := Some old;
                    transaction :=
                      Some (Some ((if delete_ok then [] else old)
                                  ++ inserted (getCounters (counterManager mw)) verdicts)) |}
          else {| table := Some ((if delete_ok then [] else old)
                                 ++ inserted (getCounters (counterManager mw)) verdicts);
                  transaction := None |};
        available := true; registered := true; opened := true;
        outcomes := skipn (S (length (getCounters (counterManager mw)))) verdicts;
        rollbacks := skipn (3 + length (getCounters (counterManager mw))) flags;
        messages := [] |}).
Proof.
  intros Hkeep.
  pose proof (keeps_transactions_hd _ Hkeep) as Hhd.
  pose proof (keeps_transactions_tl _ Hkeep) as Hkeep1.
  set (n := length (getCounters (counterManager mw))).
  pose proof (keeps_transactions_firstn (S n) _ Hkeep1) as Hkeep2.
  pose proof (keeps_transactions_hd _
                (keeps_transactions_skipn (S n) _ Hkeep1)) as Hhd3.
  rewrite onSaveClicked_statements by reflexivity.
  unfold world_with_rollbacks.
  unfold bind at 1. unfold exec_ at 1, bind at 1.
  rewrite exec_keeps by now right.
  destruct begin_ok; cbn [sql transaction table tl ret];
    unfold bind at 1;
    (erewrite save_writes_verdicts; [| reflexivity | now right]);
    unfold exec_, bind; rewrite exec_keeps by (now right);
    fold n; rewrite nth_skipn_hd, skipn_tl, !tl_skipn; unfold ret, write;
    cbn [sql current transaction table app];
    now destruct (nth n verdicts true).
Qed.

(** What a save stores when statements fail without ending the
    transaction, on an open connection to a file that has the table.  The
    rows written are the counters whose [INSERT] was carried out, in their
    order, after the old rows when [DELETE] was not carried out.  With
    [BEGIN] carried out they replace the table when [COMMIT] is carried
    out, and stay in the open transaction, the table keeping its old rows,
    when it is not; with [BEGIN] not carried out they are in the table at
    once.  In no case is a message shown. *)
Theorem onSaveClicked_with_failures (mw : MainWindow) (old : list Z)
  (begin_ok delete_ok : bool) (verdicts flags : list bool) :
  keeps_transactions flags ->
  sqlite (snd (onSaveClicked mw
                 (world_with_rollbacks old (begin_ok :: delete_ok :: verdicts) flags)))
  = (if begin_ok
     then
       if nth (length (getCounters (counterManager mw))) verdicts true
       then {| table := Some ((if delete_ok then [] else old)
                              ++ inserted (getCounters (counterManager mw)) verdicts);
               transaction := None |}
       else {| table := Some old;
               transaction :=
                 Some (Some ((if delete_ok then [] else old)
                             ++ inserted (getCounters (counterManager mw)) verdicts)) |}
     else {| table := Some ((if delete_ok then [] else old)
                            ++ inserted (getCounters (counterManager mw)) verdicts);
             transaction := None |}) /\
  messages (snd (onSaveClicked mw
                   (world_with_rollbacks old (begin_ok :: delete_ok :: verdicts) flags)))
  = [].
Proof.
  intros Hkeep. rewrite onSaveClicked_verdicts by assumption. split; reflexivity.
Qed.

Lemma onSaveClicked_with_failures_witness :
  sqlite (snd (onSaveClicked (new_MainWindow [1; 2; 3])
                 (world_with_rollbacks [7; 8] [true; false; true; false; true; false]
                    [false; false; false; false; false; false])))
  = {| table := Some [7; 8]; transaction := Some (Some [7; 8; 1; 3]) |}.
Proof.
  apply (onSaveClicked_with_failures (new_MainWindow [1; 2; 3]) [7; 8] true false
           [true; false; true; false] [false; false; false; false; false; false]).
  repeat constructor.
Defined.

Lemma exec_without_table q w :
  q <> CreateTableIfNotExists ->
  table (sqlite w) = None -> current (sqlite w) = None ->
  table (sqlite (snd (exec_ q w))) = None /\
  current (sqlite (snd (exec_ q w))) = None /\
  messages (snd (exec_ q w)) = messages w.
Proof.
  intros Hq Htbl Hnone. destruct w as [[tbl txn] av reg op outs rbs msgs].
  cbn in Htbl, Hnone. subst tbl.
  unfold exec_, bind, exec, ret. cbn [opened outcomes rollbacks sqlite].
  destruct (op && match outs with [] => true | b :: _ => b end).
  - destruct q; try congruence; cbn [sql]; rewrite ?Hnone;
      destruct txn as [copy|]; cbn in Hnone |- *; subst; auto.
  - destruct (op && match rbs with [] => false | b :: _ => b end); cbn; auto.
Qed.

Lemma for_each_without_table qs : forall w,
  Forall (fun q => q <> CreateTableIfNotExists) qs ->
  table (sqlite w) = None -> current (sqlite w) = None ->
  table (sqlite (snd (for_each qs exec_ w))) = None /\
  current (sqlite (snd (for_each qs exec_ w))) = None /\
  messages (snd (for_each qs exec_ w)) = messages w.
Proof.
  induction qs as [|q qs IH]; intros w Hqs Htbl Hnone.
  - cbn. auto.
  - inversion Hqs as [|? ? Hq Hqs']; subst.
    destruct (exec_without_table q w Hq Htbl Hnone) as (Ht & Hc & Hm).
    cbn [for_each]. unfold bind.
    destruct (exec_ q w) as [u w1]. cbn [snd] in Ht, Hc, Hm.
    destruct (IH w1 Hqs' Ht Hc) as (Ht' & Hc' & Hm').
    now rewrite Hm', Hm.
Qed.

Lemma save_writes_not_create counters :
  Forall (fun q => q <> CreateTableIfNotExists) (save_writes counters).
Proof.
  apply Forall_forall. intros q [<- | Hq]; [discriminate |].
  apply in_map_iff in Hq as (value & <- & _). discriminate.
Qed.

Lemma onSaveClicked_opens mw s reg outs rbs msgs :
  onSaveClicked mw {| sqlite := s; available := true; registered := true;
                      opened := reg; outcomes := outs; rollbacks := rbs;
                      messages := msgs |}
  = onSaveClicked mw {| sqlite := s; available := true; registered := true;
                        opened := true; outcomes := outs; rollbacks := rbs;
                        messages := msgs |}.
Proof. now destruct reg. Qed.

(** On a file that has no table [counters] (no load ever reached it), a
    save stores nothing and shows nothing, whatever the verdicts of the
    engine: the file still has no table afterwards. *)
Theorem onSaveClicked_without_table (mw : MainWindow) (w : World) :
  registered w = true ->
  available w = true ->
  table (sqlite w) = None ->
  transaction (sqlite w) = None ->
  table (sqlite (snd (onSaveClicked mw w))) = None /\
  messages (snd (onSaveClicked mw w)) = messages w.
Proof.
  intros Hreg Hav Htbl Htxn. destruct w as [[tbl txn] av reg op outs rbs msgs].
  cbn in Hreg, Hav, Htbl, Htxn. subst reg av tbl txn.
  cbn [messages sqlite].
  rewrite onSaveClicked_opens, onSaveClicked_statements by reflexivity.
  set (w0 := {| sqlite := {| table := None; transaction := None |};
                available := true; registered := true; opened := true;
                outcomes := outs; rollbacks := rbs; messages := msgs |}).
  change msgs with (messages w0).
  assert (Hbegin : BeginTransaction <> CreateTableIfNotExists) by discriminate.
  assert (Hcommit : Commit <> CreateTableIfNotExists) by discriminate.
  destruct (exec_without_table BeginTransaction w0 Hbegin eq_refl eq_refl)
    as (Ht1 & Hc1 & Hm1).
  destruct ((exec_ BeginTransaction ;;; _) w0) as [u w'] eqn:E. cbn [snd].
  unfold bind in E.
  destruct (exec_ BeginTransaction w0) as [u1 w1].
  cbn [snd] in Ht1, Hc1, Hm1.
  destruct (for_each_without_table _ w1
              (save_writes_not_create (getCounters (counterManager mw))) Ht1 Hc1)
    as (Ht2 & Hc2 & Hm2).
  destruct (for_each (save_writes (getCounters (counterManager mw))) exec_ w1)
    as [u2 w2].
  cbn [snd] in Ht2, Hc2, Hm2.
  destruct (exec_without_table Commit w2 Hcommit Ht2 Hc2) as (Ht3 & _ & Hm3).
  rewrite E in Ht3, Hm3. cbn [snd] in Ht3, Hm3.
  split; [exact Ht3 | congruence].
Qed.

Lemma onSaveClicked_without_table_witness :
  table (sqlite (snd (onSaveClicked (new_MainWindow [1; 2])
    {| sqlite := {| table := None; transaction := None |};
       available := true; registered := true; opened := false;
       outcomes := []; rollbacks := []; messages := [] |}))) = None.
Proof.
  apply (onSaveClicked_without_table (new_MainWindow [1; 2])
    {| sqlite := {| table := None; transaction := None |};
       available := true; registered := true; opened := false;
       outcomes := []; rollbacks := []; messages := [] |}); reflexivity.
Defined.

Lemma for_each_app {A} (l1 l2 : list A) (body : A -> Qt unit) (w : World) :
  for_each (l1 ++ l2) body w = for_each l2 body (snd (for_each l1 body w)).
Proof.
  revert w. induction l1 as [|x l1 IH]; intros w; cbn [app for_each].
  - reflexivity.
  - unfold bind. destruct (body x w) as [u w']. apply IH.
Qed.

Lemma nth_skipn_flag (n : nat) (flags : list bool) :
  match skipn n flags with [] => false | b :: _ => b end = nth n flags false.
Proof.
  revert flags. induction n as [|n IH]; intros [|b flags]; cbn; auto.
Qed.

(** The state a save reaches before its [COMMIT] when [BEGIN] is carried
    out and no failure of the writes ends the transaction. *)
Lemma onSaveClicked_before_commit (counters : vector) (old : list Z)
  (delete_ok : bool) (verdicts flags : list bool) :
  keeps_transactions (firstn (2 + length counters) flags) ->
  (exec_ BeginTransaction ;;; for_each (save_writes counters) exec_)
    (world_with_rollbacks old (true :: delete_ok :: verdicts) flags)
  = (tt,
     {| sqlite := {| table := Some old;
                     transaction :=
                       Some (Some ((if delete_ok then [] else old)
                                   ++ inserted counters verdicts)) |};
        available := true; registered := true; opened := true;
        outcomes := skipn (length counters) verdicts;
        rollbacks := skipn (2 + length counters) flags;
        messages := [] |}).
Proof.
  intros Hkeep.
  pose proof (keeps_firstn_hd _ _ Hkeep) as Hhd.
  pose proof (keeps_firstn_tl _ _ Hkeep) as Hkeep1.
  unfold world_with_rollbacks.
  unfold bind at 1. unfold exec_ at 1, bind at 1.
  rewrite exec_keeps by now right.
  cbn [sql transaction table tl ret].
  erewrite save_writes_verdicts; [| reflexivity | now right].
  now rewrite skipn_tl.
Qed.

Lemma bind_assoc {A B C} (a : Qt A) (b : Qt B) (c : Qt C) (w : World) :
  (a ;;; b ;;; c) w = ((a ;;; b) ;;; c) w.
Proof. unfold bind. now destruct (a w) as [x w']. Qed.

Lemma failed_commit_state (mw : MainWindow) (old : list Z) (delete_ok : bool)
  (verdicts flags : list bool) :
  keeps_transactions (firstn (2 + length (getCounters (counterManager mw))) flags) ->
  nth (length (getCounters (counterManager mw))) verdicts true = false ->
  exists outs rbs,
    snd (MainWindow_delete
           (snd (onSaveClicked mw
                   (world_with_rollbacks old (true :: delete_ok :: verdicts) flags))))
    = {| sqlite := {| table := Some old; transaction := None |};
         available := true; registered := true; opened := false;
         outcomes := outs; rollbacks := rbs; messages := [] |}.
Proof.
  intros Hkeep Hcommit.
  rewrite onSaveClicked_statements by reflexivity.
  rewrite bind_assoc. unfold bind at 1.
  rewrite onSaveClicked_before_commit by assumption.
  unfold exec_, bind, exec, ret.
  cbn [opened outcomes rollbacks sqlite andb].
  rewrite nth_skipn_hd, Hcommit.
  destruct (match skipn _ flags with [] => false | b :: _ => b end);
    eexists; eexists; reflexivity.
Qed.

(** A save whose [COMMIT] is not carried out is lost when the window is
    closed, as long as no failure before the [COMMIT] ended the
    transaction: whether the failed [COMMIT] leaves the transaction open
    or rolls it back, after the destructor the file holds the rows it had
    before the save, and no message was shown. *)
Theorem failed_commit_is_lost (mw : MainWindow) (old : list Z) (delete_ok : bool)
  (verdicts flags : list bool) :
  keeps_transactions (firstn (2 + length (getCounters (counterManager mw))) flags) ->
  nth (length (getCounters (counterManager mw))) verdicts true = false ->
  sqlite (snd (MainWindow_delete
                 (snd (onSaveClicked mw
                         (world_with_rollbacks old (true :: delete_ok :: verdicts) flags)))))
  = {| table := Some old; transaction := None |} /\
  messages (snd (MainWindow_delete
                   (snd (onSaveClicked mw
                           (world_with_rollbacks old (true :: delete_ok :: verdicts)
                              flags)))))
  = [].
Proof.
  intros Hkeep Hcommit.
  destruct (failed_commit_state mw old delete_ok verdicts flags Hkeep Hcommit)
    as (outs & rbs & E).
  rewrite E. split; reflexivity.
Qed.

Lemma failed_commit_is_lost_witness :
  sqlite (snd (MainWindow_delete
    (snd (onSaveClicked (new_MainWindow [1; 2])
            (world_with_rollbacks [7; 8] [true; true; true; true; false]
               [false; false; false; false; true])))))
  = {| table := Some [7; 8]; transaction := None |}.
Proof.
  apply (failed_commit_is_lost (new_MainWindow [1; 2]) [7; 8] true [true; true; false]
           [false; false; false; false; true]).
  - repeat constructor.
  - reflexivity.
Defined.

(** On an open connection [onSaveClicked] is [BEGIN], the writes, [COMMIT];
    when [BEGIN] is carried out and the process stops after any number of
    the writes (the connection is closed, the transaction rolled back), the
    table holds the rows it had before, whatever the verdicts on the
    writes, as long as no failure ended the transaction by itself. *)
Theorem onSaveClicked_interrupted (mw : MainWindow) (k : nat) (old : list Z)
  (verdicts flags : list bool) :
  onSaveClicked mw (world_with_rollbacks old (true :: verdicts) flags)
  = (exec_ BeginTransaction ;;;
     for_each (save_writes (getCounters (counterManager mw))) exec_ ;;;
     exec_ Commit) (world_with_rollbacks old (true :: verdicts) flags) /\
  (keeps_transactions flags ->
   table (sqlite (snd
     ((exec_ BeginTransaction ;;;
       for_each (firstn k (save_writes (getCounters (counterManager mw)))) exec_ ;;;
       close) (world_with_rollbacks old (true :: verdicts) flags))))
   = Some old).
Proof.
  split.
  - now apply onSaveClicked_statements.
  - intros Hkeep. now apply interrupted_save_keeps_table.
Qed.

Lemma onSaveClicked_interrupted_witness :
  table (sqlite (snd
    ((exec_ BeginTransaction ;;;
      for_each (firstn 3 (save_writes [1; 2; 3])) exec_ ;;;
      close) (world_with_rollbacks [7; 8] [true; true; true; false] []))))
  = Some [7; 8].
Proof.
  apply (proj2 (onSaveClicked_interrupted (new_MainWindow [1; 2; 3]) 3 [7; 8]
                  [true; true; false] [])).
  constructor.
Defined.

(** A failure that rolls the transaction back makes the rest of the save
    durable at once.  When [BEGIN] is carried out, the [INSERT] of the
    counter [c] fails and the engine ends the transaction, no earlier
    failure having done so, the old rows are restored, each later [INSERT]
    that is carried out appends its counter to the table outside any
    transaction, and [COMMIT] is rejected: the file ends with the old rows
    followed by those counters, and no message is shown. *)
Theorem onSaveClicked_rolled_back (mw : MainWindow) (old pre post : vector) (c : Z)
  (delete_ok : bool) (before after flags : list bool) :
  getCounters (counterManager mw) = pre ++ c :: post ->
  length before = length pre ->
  keeps_transactions (firstn (2 + length pre) flags) ->
  nth (2 + length pre) flags false = true ->
  sqlite (snd (onSaveClicked mw
                 (world_with_rollbacks old
                    (true :: delete_ok :: before ++ false :: after) flags)))
  = {| table := Some (old ++ inserted post after); transaction := None |} /\
  messages (snd (onSaveClicked mw
                   (world_with_rollbacks old
                      (true :: delete_ok :: before ++ false :: after) flags)))
  = [].
Proof.
  intros Hcounters Hlen Hkeep Hflag.
  rewrite onSaveClicked_statements by reflexivity.
  rewrite Hcounters.
  replace (save_writes (pre ++ c :: post))
    with (save_writes pre ++ InsertValue c :: map InsertValue post)
    by (unfold save_writes; now rewrite map_app).
  destruct ((exec_ BeginTransaction ;;; _) _) as [u w'] eqn:E. cbn [snd].
  unfold bind at 1 in E.
  destruct (exec_ BeginTransaction _) as [u0 w0] eqn:E0.
  unfold bind at 1 in E. rewrite for_each_app in E.
  pose proof (onSaveClicked_before_commit pre old delete_ok
                (before ++ false :: after) flags Hkeep) as E1.
  unfold bind in E1. rewrite E0 in E1. rewrite E1 in E. clear E0 E1.
  cbn [snd] in E.
  assert (Hskip : skipn (length pre) (before ++ false :: after) = false :: after).
  { rewrite <- Hlen, skipn_app, skipn_all, Nat.sub_diag. reflexivity. }
  rewrite Hskip in E. cbn [for_each] in E.
  unfold bind at 1 in E. unfold exec_ at 1, bind at 1, exec at 1 in E.
  cbn [opened outcomes rollbacks sqlite andb tl] in E.
  rewrite nth_skipn_flag, Hflag in E.
  unfold set_sqlite, rollback, ret in E.
  cbn [opened outcomes rollbacks sqlite available registered messages table] in E.
  rewrite for_each_map in E.
  rewrite (insert_loop_verdicts post _ old) in E by (trivial; now left).
  unfold exec_, bind, exec, ret, write, set_sqlite, rollback in E.
  cbn [opened outcomes rollbacks sqlite available registered messages table
       transaction andb sql] in E.
  destruct (match skipn (length post) after with [] => true | b :: _ => b end);
    [| destruct (match skipn (length post) (tl (skipn (2 + length pre) flags)) with
                 | [] => false | b :: _ => b end)];
    injection E as _ <-; split; reflexivity.
Qed.

Lemma onSaveClicked_rolled_back_witness :
  sqlite (snd (onSaveClicked (new_MainWindow [1; 2; 3])
                 (world_with_rollbacks [7; 8] [true; true; true; false; true; true]
                    [false; false; false; true])))
  = {| table := Some [7; 8; 3]; transaction := None |}.
Proof.
  apply (onSaveClicked_rolled_back (new_MainWindow [1; 2; 3]) [7; 8] [1] [3] 2 true
           [true] [true; true] [false; false; false; true]); try reflexivity.
  repeat constructor.
Defined.

(** ** The table *)

Lemma valid_row_middle (pre : QTableWidget) c rest :
  valid_row (Z.of_nat (length pre)) (pre ++ c :: rest) = true.
Proof.
  unfold valid_row, rowCount. rewrite length_app. cbn [length].
  apply andb_true_intro. split; [apply Z.leb_le | apply Z.ltb_lt]; lia.
Qed.

Lemma item_middle (pre : QTableWidget) c rest :
  item (Z.of_nat (length pre)) (pre ++ c :: rest) = c.
Proof.
  unfold item. rewrite valid_row_middle, Nat2Z.id.
  rewrite app_nth2, Nat.sub_diag by lia. reflexivity.
Qed.

Lemma setItem_middle (pre : QTableWidget) c rest text :
  setItem (Z.of_nat (length pre)) text (pre ++ c :: rest) = pre ++ Some text :: rest.
Proof.
  unfold setItem. rewrite valid_row_middle, Nat2Z.id.
  rewrite firstn_app, firstn_all, Nat.sub_diag. cbn [firstn].
  rewrite app_nil_r. f_equal. f_equal.
  rewrite skipn_app, skipn_all2 by lia.
  replace (S (length pre) - length pre)%nat with 1%nat by lia. reflexivity.
Qed.

Lemma setText_middle (pre : QTableWidget) old rest text :
  setText (Z.of_nat (length pre)) text (pre ++ Some old :: rest)
  = pre ++ Some text :: rest.
Proof. unfold setText. now rewrite item_middle, setItem_middle. Qed.

Lemma for_loop_fill (body : Z -> QTableWidget -> QTableWidget) (f : nat -> string) :
  (forall pre c rest,
     body (Z.of_nat (length pre)) (pre ++ c :: rest)
     = pre ++ Some (f (length pre)) :: rest) ->
  forall rest pre,
    for_loop (length rest) (Z.of_nat (length pre)) body (pre ++ rest)
    = pre ++ map (fun j => Some (f j)) (seq (length pre) (length rest)).
Proof.
  intros Hbody. induction rest as [|c rest IH]; intros pre.
  - reflexivity.
  - cbn [length for_loop seq map]. rewrite Hbody.
    replace (Z.of_nat (length pre) + 1) with (Z.of_nat (length (pre ++ [Some (f (length pre))])))
      by (rewrite length_app; cbn [length]; lia).
    replace (pre ++ Some (f (length pre)) :: rest)
      with ((pre ++ [Some (f (length pre))]) ++ rest)
      by (now rewrite <- app_assoc).
    rewrite IH, <- app_assoc. cbn [app].
    rewrite length_app. cbn [length]. now rewrite Nat.add_1_r.
Qed.

Lemma map_nth_seq {B} (g : Z -> B) (l : vector) :
  map (fun j => g (nth j l 0)) (seq 0 (length l)) = map g l.
Proof.
  induction l as [|x l IH]; cbn [length seq map nth]; trivial.
  f_equal. rewrite <- seq_shift, map_map. exact IH.
Qed.

Lemma length_setRowCount (n : nat) (t : QTableWidget) :
  length (setRowCount (Z.of_nat n) t) = n.
Proof.
  unfold setRowCount.
  destruct (Z.of_nat n <? 0) eqn:E; [apply Z.ltb_lt in E; lia |].
  rewrite Nat2Z.id, length_app, length_firstn, repeat_length. lia.
Qed.

Lemma fill_table (body : Z -> QTableWidget -> QTableWidget) (counters : vector)
  (t : QTableWidget) :
  (forall pre c rest,
     body (Z.of_nat (length pre)) (pre ++ c :: rest)
     = pre ++ Some (number (nth (length pre) counters 0)) :: rest) ->
  Z.of_nat (length counters) <= Int.max_int ->
  for_int (Int.static_cast_int (length counters)) body
    (setRowCount (Int.static_cast_int (length counters)) t)
  = map (fun c => Some (number c)) counters.
Proof.
  intros Hbody Hlen. rewrite static_cast_int_small by assumption.
  unfold for_int. rewrite Nat2Z.id.
  pose proof (length_setRowCount (length counters) t) as Hrows.
  set (t0 := setRowCount (Z.of_nat (length counters)) t) in *.
  rewrite <- Hrows at 1.
  pose proof (for_loop_fill body (fun j => number (nth j counters 0)) Hbody t0 [])
    as Hfill.
  cbn [app length Z.of_nat] in Hfill. rewrite Hfill, Hrows.
  apply (map_nth_seq (fun c => Some (number c))).
Qed.

Lemma updateTable_cells (mw : MainWindow) (ui : Widgets) :
  Z.of_nat (length (getCounters (counterManager mw))) <= Int.max_int ->
  tableWidget (updateTable mw ui)
  = map (fun c => Some (number c)) (getCounters (counterManager mw)).
Proof.
  intros Hlen. unfold updateTable. cbn [tableWidget].
  apply fill_table; trivial.
  intros pre c rest. rewrite item_middle, Nat2Z.id.
  destruct c as [old|].
  - apply setText_middle.
  - rewrite setItem_middle. apply setText_middle.
Qed.

(** After [updateTable] the table shows the counters of the store: one row
    per counter, in order, each with the value printed, whatever the table
    held before (fewer rows, more rows, rows without an item); the window's
    height is not touched.  The store holds at most [INT_MAX] counters. *)
Theorem updateTable_shows (mw : MainWindow) (ui : Widgets) :
  Z.of_nat (length (getCounters (counterManager mw))) <= Int.max_int ->
  shows (tableWidget (updateTable mw ui)) (getCounters (counterManager mw)) /\
  windowHeight (updateTable mw ui) = windowHeight ui.
Proof.
  intros Hlen. split; [now apply updateTable_cells | reflexivity].
Qed.

Lemma updateTable_shows_witness :
  tableWidget (updateTable (new_MainWindow [12; -3])
                 {| tableWidget := [None; Some "7"%string; Some "9"%string];
                    windowHeight := 400 |})
  = [Some "12"%string; Some "-3"%string].
Proof.
  apply (updateTable_shows (new_MainWindow [12; -3])
           {| tableWidget := [None; Some "7"%string; Some "9"%string];
              windowHeight := 400 |}).
  cbn. unfold Int.max_int. lia.
Defined.

Lemma insertRow_end (t : QTableWidget) : insertRow (rowCount t) t = t ++ [None].
Proof.
  unfold insertRow, rowCount.
  replace ((0 <=? Z.of_nat (length t)) && (Z.of_nat (length t) <=? Z.of_nat (length t)))
    with true
    by (symmetry; apply andb_true_intro; split; apply Z.leb_le; lia).
  now rewrite Nat2Z.id, firstn_all, skipn_all.
Qed.

Lemma onAddClicked_cells d mw ui :
  tableWidget (snd (onAddClicked d mw ui)) = tableWidget ui ++ [Some "0"%string].
Proof.
  unfold onAddClicked. cbn [snd adjustWindowSize tableWidget].
  rewrite insertRow_end. unfold rowCount. apply setItem_middle.
Qed.

(** A click on Add appends the counter [0] to the store and a row showing
    [0] to the table, and resizes the window for the new table: a table
    that showed the counters still shows them. *)
Theorem onAddClicked_appends (d : Desktop) (mw : MainWindow) (ui : Widgets) :
  getCounters (counterManager (fst (onAddClicked d mw ui)))
  = getCounters (counterManager mw) ++ [0] /\
  tableWidget (snd (onAddClicked d mw ui)) = tableWidget ui ++ [Some "0"%string] /\
  (shows (tableWidget ui) (getCounters (counterManager mw)) ->
   shows (tableWidget (snd (onAddClicked d mw ui)))
     (getCounters (counterManager (fst (onAddClicked d mw ui))))) /\
  windowHeight (snd (onAddClicked d mw ui))
  = finalHeight d (tableWidget (snd (onAddClicked d mw ui))).
Proof.
  repeat split.
  - apply onAddClicked_cells.
  - unfold shows. intros Hshows. rewrite onAddClicked_cells, Hshows.
    cbn [onAddClicked fst set_counterManager counterManager getCounters addCounter counters_].
    unfold push_back. now rewrite map_app.
Qed.

Lemma onAddClicked_appends_witness :
  shows (tableWidget (snd (onAddClicked
    {| sectionSize := 30; headerHeight := 25; availableHeight := 1000 |}
    (new_MainWindow [4])
    {| tableWidget := [Some "4"%string]; windowHeight := 205 |})))
    [4; 0].
Proof.
  apply (onAddClicked_appends
    {| sectionSize := 30; headerHeight := 25; availableHeight := 1000 |}
    (new_MainWindow [4])
    {| tableWidget := [Some "4"%string]; windowHeight := 205 |}).
  reflexivity.
Defined.

Lemma removeRow_map {A} (g : A -> option string) (row : Z) (l : list A) :
  0 <= row < Z.of_nat (length l) ->
  removeRow row (map g l)
  = map g (firstn (Z.to_nat row) l ++ skipn (S (Z.to_nat row)) l).
Proof.
  intros Hrow. unfold removeRow, valid_row, rowCount. rewrite length_map.
  replace ((0 <=? row) && (row <? Z.of_nat (length l))) with true
    by (symmetry; apply andb_true_intro; split; [apply Z.leb_le | apply Z.ltb_lt]; lia).
  now rewrite map_app, firstn_map, skipn_map.
Qed.

Lemma removeRow_invalid (row : Z) (t : QTableWidget) :
  ~ (0 <= row < Z.of_nat (length t)) -> removeRow row t = t.
Proof.
  intros Hrow. unfold removeRow, valid_row, rowCount.
  destruct (0 <=? row) eqn:H0; cbn [andb]; trivial.
  destruct (row <? _) eqn:H1; trivial.
  apply Z.leb_le in H0. apply Z.ltb_lt in H1. lia.
Qed.

(** A click on Delete with nothing selected changes nothing, whatever the
    window and the table.  With an item of row [row] selected first, on a
    table that shows the at most [INT_MAX] counters, it removes the counter
    and the row at [row], the table still shows the counters, and it
    selects the row that took the place of the removed one, or the last row
    when the removed one was the last; it selects nothing when no row is
    left. *)
Theorem onDeleteClicked_removes (d : Desktop) (row : Z) (others : list Z)
  (mw : MainWindow) (ui : Widgets) :
  onDeleteClicked d [] mw ui = (mw, ui, None) /\
  (shows (tableWidget ui) (getCounters (counterManager mw)) ->
   Z.of_nat (length (getCounters (counterManager mw))) <= Int.max_int ->
   0 <= row < Z.of_nat (length (getCounters (counterManager mw))) ->
   getCounters (counterManager (fst (fst (onDeleteClicked d (row :: others) mw ui))))
   = erase (Z.to_nat row) (getCounters (counterManager mw)) /\
   shows (tableWidget (snd (fst (onDeleteClicked d (row :: others) mw ui))))
     (erase (Z.to_nat row) (getCounters (counterManager mw))) /\
   snd (onDeleteClicked d (row :: others) mw ui)
   = (if Z.of_nat (length (getCounters (counterManager mw))) =? 1 then None
      else Some (Z.min row (Z.of_nat (length (getCounters (counterManager mw))) - 2)))).
Proof.
  split; [reflexivity |].
  intros Hshows Hlen Hrow. unfold shows in *.
  destruct mw as [[l] timer sum label]. destruct ui as [t h].
  cbn [getCounters counterManager counters_ tableWidget] in *. subst t.
  unfold onDeleteClicked.
  cbn [fst snd set_counterManager counterManager getCounters adjustWindowSize tableWidget].
  rewrite deleteCounter_in_range by (rewrite static_cast_int_small; lia).
  rewrite removeRow_map by assumption. fold (erase (Z.to_nat row) l).
  cbn [counters_]. repeat split.
  unfold rowCount. rewrite length_map.
  assert (Herase : Z.of_nat (length (erase (Z.to_nat row) l)) = Z.of_nat (length l) - 1).
  { assert (Hpos : (Z.to_nat row < length l)%nat) by lia.
    pose proof (length_erase _ _ Hpos). lia. }
  rewrite Herase.
  destruct (Z.of_nat (length l) =? 1) eqn:E1.
  - apply Z.eqb_eq in E1. rewrite E1. reflexivity.
  - apply Z.eqb_neq in E1.
    replace (0 <? Z.of_nat (length l) - 1) with true
      by (symmetry; apply Z.ltb_lt; lia).
    f_equal. destruct (Z.of_nat (length l) - 1 <=? row) eqn:E2.
    + apply Z.leb_le in E2. lia.
    + apply Z.leb_gt in E2. lia.
Qed.

Lemma onDeleteClicked_removes_witness :
  getCounters (counterManager (fst (fst (onDeleteClicked
    {| sectionSize := 30; headerHeight := 25; availableHeight := 1000 |}
    [2] (new_MainWindow [5; 6; 7])
    {| tableWidget := [Some "5"%string; Some "6"%string; Some "7"%string];
       windowHeight := 265 |}))))
  = [5; 6]
  /\ snd (onDeleteClicked
    {| sectionSize := 30; headerHeight := 25; availableHeight := 1000 |}
    [2] (new_MainWindow [5; 6; 7])
    {| tableWidget := [Some "5"%string; Some "6"%string; Some "7"%string];
       windowHeight := 265 |})
  = Some 1
  /\ onDeleteClicked
    {| sectionSize := 30; headerHeight := 25; availableHeight := 1000 |}
    [] (new_MainWindow [5; 6; 7])
    {| tableWidget := [Some "5"%string; Some "6"%string; Some "7"%string];
       windowHeight := 265 |}
  = (new_MainWindow [5; 6; 7],
     {| tableWidget := [Some "5"%string; Some "6"%string; Some "7"%string];
        windowHeight := 265 |}, None).
Proof.
  assert (Hlen : Z.of_nat (length (getCounters (counterManager (new_MainWindow [5; 6; 7]))))
                 <= Int.max_int) by (cbn; unfold Int.max_int; lia).
  assert (Hrow : 0 <= 2 < Z.of_nat
                   (length (getCounters (counterManager (new_MainWindow [5; 6; 7])))))
    by (cbn; lia).
  destruct (onDeleteClicked_removes
    {| sectionSize := 30; headerHeight := 25; availableHeight := 1000 |}
    2 [] (new_MainWindow [5; 6; 7])
    {| tableWidget := [Some "5"%string; Some "6"%string; Some "7"%string];
       windowHeight := 265 |}) as (Hnone & Hsome).
  destruct (Hsome eq_refl Hlen Hrow) as (Hstore & _ & Hnext).
  split; [exact Hstore |]. split; [exact Hnext | exact Hnone].
Defined.

(** ** The constructor *)

Lemma loadCountersFromDatabase_widgets_agrees mw ui w :
  (fst (fst (loadCountersFromDatabase_widgets mw ui w)),
   snd (loadCountersFromDatabase_widgets mw ui w))
  = loadCountersFromDatabase mw w.
Proof.
  unfold loadCountersFromDatabase_widgets, loadCountersFromDatabase, bind.
  destruct (database w) as [u1 w1]. destruct (db_isValid w1) as [valid w2].
  destruct ((if negb valid then addDatabase else ret tt) w2) as [u3 w3].
  destruct (open w3) as [ok w4]. destruct (negb ok).
  - now destruct (critical _ w4).
  - destruct (exec_ CreateTableIfNotExists w4) as [u5 w5].
    destruct (exec SelectValue w5) as [r w6]. now destruct (close w6).
Qed.

Lemma loadCountersFromDatabase_widgets_table mw ui w :
  available w = true ->
  tableWidget (snd (fst (loadCountersFromDatabase_widgets mw ui w)))
  = for_int (Int.static_cast_int (length (getCounters (counterManager
               (fst (loadCountersFromDatabase mw w))))))
      (fun i t => setItem i
         (number (nth (Z.to_nat i)
                    (getCounters (counterManager (fst (loadCountersFromDatabase mw w))))
                    0)) t)
      (setRowCount (Int.static_cast_int (length (getCounters (counterManager
                      (fst (loadCountersFromDatabase mw w))))))
         (tableWidget ui)).
Proof.
  intros Hav.
  unfold loadCountersFromDatabase_widgets, loadCountersFromDatabase, bind.
  destruct (database w) as [u1 w1] eqn:E1. destruct (db_isValid w1) as [valid w2] eqn:E2.
  destruct ((if negb valid then addDatabase else ret tt) w2) as [u3 w3] eqn:E3.
  assert (Hav3 : available w3 = true).
  { unfold database in E1. unfold db_isValid in E2.
    destruct (registered w && negb (opened w)); injection E1 as _ <-;
      injection E2 as _ <-; destruct (negb valid);
      injection E3 as _ <-; exact Hav. }
  destruct (open w3) as [ok w4] eqn:E4.
  assert (ok = true) as ->.
  { unfold open in E4. injection E4 as <- _. now destruct (opened w3). }
  cbn [negb].
  destruct (exec_ CreateTableIfNotExists w4) as [u5 w5].
  destruct (exec SelectValue w5) as [r w6]. destruct (close w6). reflexivity.
Qed.

Lemma MainWindow_new_available (d : Desktop) (height : Z) tbl reg op outs rbs msgs :
  all_true outs = true ->
  Z.of_nat (length (match tbl with Some rows => rows | None => [] end)) <= Int.max_int ->
  MainWindow_new d height
    {| sqlite := {| table := tbl; transaction := None |}; available := true;
       registered := reg; opened := op; outcomes := outs;
       rollbacks := rbs; messages := msgs |}
  = (new_MainWindow (map Int.toInt (match tbl with Some rows => rows | None => [] end)),
     adjustWindowSize d
       {| tableWidget :=
            map (fun c => Some (number c))
              (map Int.toInt (match tbl with Some rows => rows | None => [] end));
          windowHeight := height |},
     {| sqlite := {| table := Some (match tbl with Some rows => rows | None => [] end);
                     transaction := None |};
        available := true; registered := true; opened := false;
        outcomes := skipn 2 outs; rollbacks := skipn 2 rbs; messages := msgs |}).
Proof.
  intros Houts Hlen.
  set (w := {| sqlite := {| table := tbl; transaction := None |}; available := true;
               registered := reg; opened := op; outcomes := outs;
               rollbacks := rbs; messages := msgs |}).
  pose proof (loadCountersFromDatabase_widgets_agrees
                (new_MainWindow []) (setupUI height) w) as Hagree.
  pose proof (loadCountersFromDatabase_widgets_table
                (new_MainWindow []) (setupUI height) w eq_refl) as Htable.
  unfold w in Hagree, Htable.
  rewrite loadCountersFromDatabase_available in Hagree, Htable by assumption.
  cbn [fst getCounters counterManager set_counterManager counters_] in Htable.
  rewrite fill_table in Htable.
  - unfold MainWindow_new, bind. fold w in Hagree, Htable |- *.
    destruct (loadCountersFromDatabase_widgets _ _ w) as [[mw' [t' h']] w'] eqn:Eload.
    cbn [fst snd tableWidget] in Hagree, Htable. injection Hagree as -> ->. subst t'.
    assert (h' = height) as ->.
    { pose proof (f_equal (fun r => windowHeight (snd (fst r))) Eload) as Hh.
      cbn [fst snd windowHeight] in Hh. rewrite <- Hh. clear.
      unfold loadCountersFromDatabase_widgets, bind.
      destruct (database w) as [u1 w1]. destruct (db_isValid w1) as [valid w2].
      destruct ((if negb valid then addDatabase else ret tt) w2) as [u3 w3].
      destruct (open w3) as [ok w4]. destruct (negb ok).
      - now destruct (critical _ w4).
      - destruct (exec_ CreateTableIfNotExists w4) as [u5 w5].
        destruct (exec SelectValue w5) as [r w6]. now destruct (close w6). }
    reflexivity.
  - intros pre c rest. rewrite Nat2Z.id. apply setItem_middle.
  - now rewrite length_map.
Qed.

(** The constructor on a file that can be opened: the window starts with
    the rows of the table, converted by [toInt], as its counters, the table
    widget shows them, the window is sized for them, the timer of the rate
    estimator is not started, and no message is shown.  The table has at
    most [INT_MAX] rows. *)
Theorem MainWindow_new_loads (d : Desktop) (height : Z) (w : World) :
  available w = true ->
  transaction (sqlite w) = None ->
  all_true (outcomes w) = true ->
  Z.of_nat (length (rows_of (sqlite w))) <= Int.max_int ->
  fst (fst (MainWindow_new d height w))
  = new_MainWindow (map Int.toInt (rows_of (sqlite w))) /\
  shows (tableWidget (snd (fst (MainWindow_new d height w))))
    (map Int.toInt (rows_of (sqlite w))) /\
  windowHeight (snd (fst (MainWindow_new d height w)))
  = finalHeight d (tableWidget (snd (fst (MainWindow_new d height w)))) /\
  messages (snd (MainWindow_new d height w)) = messages w.
Proof.
  intros Hav Htxn Houts Hlen. destruct w as [[tbl txn] av reg op outs rbs msgs].
  cbn in Hav, Htxn, Houts. subst av txn. unfold rows_of in *.
  cbn [sqlite table messages] in *.
  rewrite MainWindow_new_available by assumption.
  repeat split.
Qed.

Lemma MainWindow_new_loads_witness :
  fst (fst (MainWindow_new
    {| sectionSize := 30; headerHeight := 25; availableHeight := 1000 |} 480
    (world_with [3; 1; 2] [])))
  = new_MainWindow [3; 1; 2].
Proof.
  apply (MainWindow_new_loads
    {| sectionSize := 30; headerHeight := 25; availableHeight := 1000 |} 480
    (world_with [3; 1; 2] [])); try reflexivity.
  cbn. unfold Int.max_int. lia.
Defined.

(** The constructor on a file that cannot be opened: one message is shown,
    and the window starts without counters, its table without rows, sized
    for the empty table. *)
Theorem MainWindow_new_unavailable (d : Desktop) (height : Z) (w : World) :
  available w = false ->
  fst (MainWindow_new d height w)
  = (new_MainWindow [], {| tableWidget := []; windowHeight := finalHeight d [] |}) /\
  messages (snd (MainWindow_new d height w))
  = messages w ++ ["Failed to open database"%string].
Proof.
  intros Hav. destruct w as [s av reg op outs rbs msgs]. cbn in Hav. subst av.
  destruct reg, op; cbn; auto.
Qed.

Lemma MainWindow_new_unavailable_witness :
  messages (snd (MainWindow_new
    {| sectionSize := 30; headerHeight := 25; availableHeight := 1000 |} 480
    {| sqlite := {| table := Some [7]; transaction := None |};
       available := false; registered := false; opened := false;
       outcomes := []; rollbacks := []; messages := [] |}))
  = ["Failed to open database"%string].
Proof.
  apply (MainWindow_new_unavailable
    {| sectionSize := 30; headerHeight := 25; availableHeight := 1000 |} 480
    {| sqlite := {| table := Some [7]; transaction := None |};
       available := false; registered := false; opened := false;
       outcomes := []; rollbacks := []; messages := [] |}).
  reflexivity.
Defined.

(** ** The height of the window *)

(** As long as nothing overflows [int], [adjustWindowSize] asks for the
    height of the rows, the header and 150 more, capped at the available
    height of the screen less 100; a table without rows counts no row
    height. *)
Theorem finalHeight_closed_form (d : Desktop) (t : QTableWidget) :
  0 <= sectionSize d ->
  0 <= headerHeight d ->
  Int.in_range (availableHeight d - 100) ->
  sectionSize d * rowCount t + headerHeight d + 150 <= Int.max_int ->
  finalHeight d t
  = Z.min (sectionSize d * rowCount t + headerHeight d + 150) (availableHeight d - 100).
Proof.
  intros Hsec Hhead Havail Hfit.
  assert (Hrows : 0 <= rowCount t) by (unfold rowCount; lia).
  assert (Hprod : rowHeight d 0 t * rowCount t = sectionSize d * rowCount t).
  { unfold rowHeight, valid_row. destruct t as [|c t].
    - unfold rowCount. cbn. lia.
    - reflexivity. }
  unfold finalHeight, int_mul, int_sub, Int.add. rewrite Hprod.
  assert (Hnn : 0 <= sectionSize d * rowCount t) by nia.
  assert (Hr : forall z, 0 <= z <= sectionSize d * rowCount t + headerHeight d + 150 ->
                         Int.wrap z = z).
  { intros z Hz. apply wrap_id.
    unfold Int.in_range, Int.min_int, Int.max_int in *. lia. }
  rewrite (Hr (sectionSize d * rowCount t)) by lia.
  rewrite (Hr (sectionSize d * rowCount t + headerHeight d)) by lia.
  rewrite (Hr (sectionSize d * rowCount t + headerHeight d + 150)) by lia.
  now rewrite (wrap_id (availableHeight d - 100)).
Qed.

Lemma finalHeight_closed_form_witness :
  finalHeight {| sectionSize := 30; headerHeight := 25; availableHeight := 1000 |}
    [Some "1"%string; None; Some "3"%string] = 265
  /\ finalHeight {| sectionSize := 30; headerHeight := 25; availableHeight := 300 |}
    [Some "1"%string; None; Some "3"%string] = 200.
Proof.
  split.
  - apply (finalHeight_closed_form
      {| sectionSize := 30; headerHeight := 25; availableHeight := 1000 |}
      [Some "1"%string; None; Some "3"%string]);
      cbn; unfold Int.in_range, Int.min_int, Int.max_int; lia.
  - apply (finalHeight_closed_form
      {| sectionSize := 30; headerHeight := 25; availableHeight := 300 |}
      [Some "1"%string; None; Some "3"%string]);
      cbn; unfold Int.in_range, Int.min_int, Int.max_int; lia.
Defined.

(** ** The table and the store over a run *)

Lemma handle_rows_match (d : Desktop) (e : Event) (st : MainWindow * Widgets) :
  Z.of_nat (length (getCounters (counterManager (fst st)))) <= Int.max_int ->
  rows_match st ->
  rows_match (handle d e st) /\
  (length (getCounters (counterManager (fst (handle d e st))))
   <= S (length (getCounters (counterManager (fst st)))))%nat.
Proof.
  destruct st as [[[l] timer sum label] [t h]]. unfold rows_match.
  cbn [fst snd getCounters counterManager counters_ tableWidget].
  intros Hlen Hmatch. destruct e as [| selected | |]; cbn [handle fst snd].
  - rewrite onAddClicked_cells.
    cbn [onAddClicked fst set_counterManager counterManager getCounters addCounter
         counters_ tableWidget].
    unfold push_back. rewrite !length_app. cbn [length]. lia.
  - destruct selected as [|row others]; cbn [onDeleteClicked fst snd];
      cbn [getCounters counterManager counters_ tableWidget]; [lia |].
    cbn [set_counterManager counterManager adjustWindowSize tableWidget].
    destruct (Z_lt_dec row 0) as [Hneg | Hnn];
      [| destruct (Z_lt_dec row (Z.of_nat (length l))) as [Hin | Hout]].
    + rewrite deleteCounter_out_of_range, removeRow_invalid;
        cbn [getCounters counters_]; lia.
    + rewrite deleteCounter_in_range by (rewrite static_cast_int_small; lia).
      cbn [counters_].
      assert (Hpos : (Z.to_nat row < length l)%nat) by lia.
      pose proof (length_erase _ _ Hpos) as Hl.
      unfold removeRow, valid_row, rowCount. rewrite Hmatch.
      replace ((0 <=? row) && (row <? Z.of_nat (length l))) with true
        by (symmetry; apply andb_true_intro; split;
            [apply Z.leb_le | apply Z.ltb_lt]; lia).
      cbn [getCounters counters_].
      rewrite length_app, length_firstn, length_skipn. lia.
    + rewrite deleteCounter_out_of_range, removeRow_invalid;
        cbn [getCounters counters_]; try lia.
      rewrite static_cast_int_small; lia.
  - rewrite updateTable_cells by assumption.
    cbn [getCounters counterManager counters_ tableWidget]. rewrite length_map. lia.
  - cbn [set_counterManager counterManager getCounters incrementAll counters_
         tableWidget].
    rewrite length_map. lia.
Qed.

(** Over any run of clicks on Add and Delete, firings of the table's timer
    and passes of the worker, a table that had one row per counter keeps one
    row per counter, as long as the store cannot grow beyond [INT_MAX]
    counters during the run. *)
Theorem rows_match_run (d : Desktop) (events : list Event)
  (st : MainWindow * Widgets) :
  rows_match st ->
  Z.of_nat (length (getCounters (counterManager (fst st))))
  + Z.of_nat (length events) <= Int.max_int ->
  rows_match (run d events st).
Proof.
  revert st. induction events as [|e events IH]; intros st Hmatch Hlen.
  - exact Hmatch.
  - cbn [run fold_left]. cbn [length] in Hlen.
    destruct (handle_rows_match d e st) as [Hmatch' Hgrow]; [lia | assumption |].
    apply IH; [assumption | lia].
Qed.

Lemma rows_match_run_witness :
  rows_match (run {| sectionSize := 30; headerHeight := 25; availableHeight := 1000 |}
                [AddClicked; WorkerTick; AddClicked; DeleteClicked [0]; TableTimer]
                (new_MainWindow [], setupUI 480)).
Proof.
  apply rows_match_run; [reflexivity |].
  cbn. unfold Int.max_int. lia.
Defined.

(** ** Loading when statements fail, and a restart *)

(** When the file can be opened but the engine does not carry out the
    [SELECT], [loadCountersFromDatabase] leaves the store without counters
    and shows nothing; when it does, the counters are the rows.  A missing
    table is created exactly when the [CREATE TABLE] is carried out; an
    existing one is never changed. *)
Theorem loadCountersFromDatabase_with_failures (mw : MainWindow) (w : World)
  (create_ok select_ok : bool) (rest : list bool) :
  available w = true ->
  transaction (sqlite w) = None ->
  outcomes w = create_ok :: select_ok :: rest ->
  getCounters (counterManager (fst (loadCountersFromDatabase mw w)))
  = (if select_ok then map Int.toInt (rows_of (sqlite w)) else []) /\
  table (sqlite (snd (loadCountersFromDatabase mw w)))
  = match table (sqlite w) with
    | Some rows => Some rows
    | None => if create_ok then Some [] else None
    end /\
  messages (snd (loadCountersFromDatabase mw w)) = messages w.
Proof.
  intros Hav Htxn Houts. destruct w as [[tbl txn] av reg op outs rbs msgs].
  cbn in Hav, Htxn, Houts. subst av txn outs.
  unfold rows_of. cbn [sqlite table messages].
  destruct tbl as [rows|], create_ok, select_ok, reg, op,
    rbs as [|[|] [|[|] rbs]];
    cbn; rewrite ?load_loop; cbn; auto.
Qed.

Lemma loadCountersFromDatabase_with_failures_witness :
  getCounters (counterManager
    (fst (loadCountersFromDatabase (new_MainWindow [1; 2])
            (world_with [7; 8] [true; false])))) = [].
Proof.
  apply (loadCountersFromDatabase_with_failures (new_MainWindow [1; 2])
           (world_with [7; 8] [true; false]) true false []); reflexivity.
Defined.

(** Save, quit, start again: on a storage that is ready, the window that
    the constructor builds after a save and the destructor has the saved
    counters, its table shows them, and no message is shown on the way.
    The store holds at most [INT_MAX] counters. *)
Theorem restart_restores (d : Desktop) (height : Z) (mw : MainWindow) (w : World) :
  storage_ready w ->
  Forall Int.in_range (getCounters (counterManager mw)) ->
  Z.of_nat (length (getCounters (counterManager mw))) <= Int.max_int ->
  fst (fst (MainWindow_new d height
              (snd (MainWindow_delete (snd (onSaveClicked mw w))))))
  = new_MainWindow (getCounters (counterManager mw)) /\
  shows (tableWidget (snd (fst (MainWindow_new d height
                                  (snd (MainWindow_delete (snd (onSaveClicked mw w))))))))
    (getCounters (counterManager mw)) /\
  messages (snd (MainWindow_new d height
                   (snd (MainWindow_delete (snd (onSaveClicked mw w))))))
  = messages w.
Proof.
  intros (Hreg & Hav & Htxn & Htbl & Houts) HX Hlen.
  destruct w as [[tbl txn] av reg op outs rbs msgs]. cbn in Hreg, Hav, Htxn, Htbl, Houts.
  subst av reg txn. destruct tbl as [old|]; [| congruence].
  rewrite onSaveClicked_ready by assumption. cbn [snd].
  set (w1 := snd (MainWindow_delete _)).
  assert (Hw1 : w1 = {| sqlite := {| table := Some (getCounters (counterManager mw));
                                     transaction := None |};
                        available := true; registered := true; opened := false;
                        outcomes := skipn (3 + length (getCounters (counterManager mw))) outs;
                        rollbacks := skipn (3 + length (getCounters (counterManager mw))) rbs;
                        messages := msgs |}) by reflexivity.
  clearbody w1. subst w1.
  rewrite MainWindow_new_available by (trivial; now apply all_true_skipn).
  rewrite map_toInt_in_range by assumption.
  repeat split.
Qed.

Lemma restart_restores_witness :
  fst (fst (MainWindow_new
    {| sectionSize := 30; headerHeight := 25; availableHeight := 1000 |} 480
    (snd (MainWindow_delete (snd (onSaveClicked (new_MainWindow [3; 1; 2])
                                    (world_with [7; 8] [])))))))
  = new_MainWindow [3; 1; 2].
Proof.
  assert (Hw : storage_ready (world_with [7; 8] [])).
  { unfold storage_ready. cbn. repeat split. discriminate. }
  apply (restart_restores
    {| sectionSize := 30; headerHeight := 25; availableHeight := 1000 |} 480
    (new_MainWindow [3; 1; 2]) (world_with [7; 8] []) Hw).
  - repeat constructor; unfold Int.min_int, Int.max_int; lia.
  - cbn. unfold Int.max_int. lia.
Defined.
